(** * TextAnalyzer: the tokenizer and the rule-based sentiment engine

    A shallow embedding of [src/tokenizer.py] and
    [src/sentiment_analyzer.py] and the properties of the analysis
    pipeline that follow from the code.

    Conventions of the embedding:
    - a Python [str] is the list of its Unicode code points ([list N]);
      literals are written as UTF-8 text and decoded by [u];
    - a Python [float] is an IEEE 754 binary64 number, Rocq's primitive
      [float], with the same rounding on every operation;
    - a Python [int] is a [Z];
    - a [dict] is a [gmap], a [set] a [gset];
    - a call that can raise returns a [result]. *)

From Stdlib Require Import ZArith NArith Floats Uint63 List Bool Lia.
From stdpp Require Import gmap strings.
Import ListNotations.

Set Warnings "-inexact-float".
#[local] Open Scope Z_scope.

Abbreviation str := (list N) (only parsing).

(** ** The part of the Python runtime the program uses *)

Module Py.

(** *** Text: UTF-8 literals to code points *)

Definition bytes_of (s : string) : list N :=
  map Ascii.N_of_ascii (String.list_ascii_of_string s).

(** Decoder of well-formed UTF-8; [fuel] bounds the number of code points. *)
Fixpoint utf8 (fuel : nat) (bs : list N) : str :=
  match fuel with
  | O => []
  | S fuel =>
    match bs with
    | [] => []
    | b0 :: bs1 =>
      if (b0 <? 128)%N then b0 :: utf8 fuel bs1
      else if (b0 <? 224)%N then
        match bs1 with
        | b1 :: r => ((b0 - 192) * 64 + (b1 - 128))%N :: utf8 fuel r
        | _ => []
        end
      else if (b0 <? 240)%N then
        match bs1 with
        | b1 :: b2 :: r =>
          ((b0 - 224) * 4096 + (b1 - 128) * 64 + (b2 - 128))%N :: utf8 fuel r
        | _ => []
        end
      else
        match bs1 with
        | b1 :: b2 :: b3 :: r =>
          ((b0 - 240) * 262144 + (b1 - 128) * 4096 + (b2 - 128) * 64
           + (b3 - 128))%N :: utf8 fuel r
        | _ => []
        end
    end
  end.

Definition u (s : string) : str :=
  let bs := bytes_of s in utf8 (length bs) bs.

(** [s.count(c)] for a one-character [c]. *)
Definition count (c : N) (s : str) : Z :=
  Z.of_nat (length (filter (N.eqb c) s)).

(** [c in s] for a one-character [c]. *)
Definition contains (c : N) (s : str) : bool := existsb (N.eqb c) s.

(** *** Exceptions *)

Inductive exn := ValueError | ZeroDivisionError.

Inductive result (A : Type) :=
| Ok (a : A)
| Raise (e : exn).
Arguments Ok {A} a.
Arguments Raise {A} e.

Definition bind {A B} (r : result A) (k : A -> result B) : result B :=
  match r with
  | Ok a => k a
  | Raise e => Raise e
  end.

(** *** Floats *)

(** [int] to [float], as in [n * 0.1]; exact below [2^53].  Every
    integer the program converts is a count of tokens or of characters,
    so it is non-negative and below [2^63]. *)
Definition float_of_int (n : Z) : float := PrimFloat.of_uint63 (Uint63.of_Z n).

(** [a / b] on floats raises on a zero divisor of either sign. *)
Definition div (a b : float) : result float :=
  if PrimFloat.eqb b 0%float then Raise ZeroDivisionError
  else Ok (a / b)%float.

(** [math.sqrt]: a NaN result of a non-NaN argument is a domain error. *)
Definition math_sqrt (x : float) : result float :=
  let r := PrimFloat.sqrt x in
  if PrimFloat.is_nan r && negb (PrimFloat.is_nan x)
  then Raise ValueError else Ok r.

(** The builtins [min(a, b)] and [max(a, b)] keep the first argument
    unless the second compares strictly below (above) it. *)
Definition min (a b : float) : float := if PrimFloat.ltb b a then b else a.
Definition max (a b : float) : float := if PrimFloat.ltb a b then b else a.

End Py.

Import Py.

Notation "'let*' x ':=' r 'in' k" := (Py.bind r (fun x => k))
  (at level 10, x name, r at level 100, k at level 200).

(** ** Score normalizer and label *)

Inductive Sentiment := Positive | Negative | Neutral.

(** The labels as the program prints them. *)
Definition sentiment_text (s : Sentiment) : str :=
  match s with
  | Positive => u "Позитивная тональность"
  | Negative => u "Негативная тональность"
  | Neutral => u "Нейтральная"
  end.

Record SentimentResult := {
  score : float;
  sentiment : Sentiment;
  word_count : Z
}.

Definition _normalize_vader_score (score : float) (word_count : Z)
  : result float :=
  if word_count =? 0 then Ok 0%float
  else
    let* root := math_sqrt (score + 15) in
    let* normalized := Py.div score root in
    let* normalized :=
      if 0 <? word_count then
        let* damp := math_sqrt (1 + float_of_int word_count * 0.001) in
        Py.div normalized damp
      else Ok normalized in
    Ok (Py.max (-4) (Py.min 4 normalized)).

Definition _get_sentiment_label (x : float) : Sentiment :=
  if PrimFloat.leb 0.05 x then Positive
  else if PrimFloat.leb x (-0.05) then Negative
  else Neutral.

(** ** What the interpreter supplies

    Three functions of CPython are defined over the whole of Unicode or
    over all decimal syntax and are not reproduced here: the class [\w]
    of the [re] module, [str.isupper] and the builtin [float] on a
    string ([None] stands for its [ValueError]). *)

Class Runtime := {
  word_char : N -> bool;
  isupper : str -> bool;
  float_of_str : str -> option float
}.

(** ** tokenizer.py *)

Record Token := {
  value : str;
  original_value : str;
  is_emoji : bool
}.

Module TextTokenizerEnhanced.

Definition between (lo hi c : N) : bool := (lo <=? c)%N && (c <=? hi)%N.

(** [[:;8=]], [[\-\^]] and [[)D(PO3]]; under [re.IGNORECASE] the last
    class also matches the three lower-case letters. *)
Definition eyes (c : N) : bool := contains c (u ":;8=").
Definition nose (c : N) : bool := contains c (u "-^").
Definition mouth (c : N) : bool := contains c (u ")D(PO3dpo").

(** The six one-character alternatives of the pattern. *)
Definition emoji_char (c : N) : bool :=
  between 0x1F300 0x1F5FF c || between 0x1F600 0x1F64F c
  || between 0x1F680 0x1F6FF c || between 0x1F1E0 0x1F1FF c
  || between 0x2600 0x26FF c || between 0x2700 0x27BF c.

(** [[а-яё]] under [re.IGNORECASE]: both cases of the Russian alphabet
    and the seven lower-case variant letters U+1C80..U+1C86, which the
    [re] module treats as case-equivalent to letters of the range. *)
Definition cyr_class (c : N) : bool :=
  between 0x410 0x44F c || (c =? 0x401)%N || (c =? 0x451)%N
  || between 0x1C80 0x1C86 c.

(** [[!?.,;]] *)
Definition punct (c : N) : bool := contains c (u "!?.,;").

(** [str.lower] on the letters of [cyr_class], the only text it is
    applied to: one code point to one code point. *)
Definition lower_char (c : N) : N :=
  if between 0x410 0x42F c then (c + 0x20)%N
  else if (c =? 0x401)%N then 0x451%N
  else c.
Definition lower (s : str) : str := map lower_char s.

(** The longest prefix of [l] made of characters in [p], and the rest:
    a greedy [p*]. *)
Fixpoint span (p : N -> bool) (l : str) : str * str :=
  match l with
  | c :: r =>
    if p c then let '(a, b) := span p r in (c :: a, b) else ([], l)
  | [] => ([], [])
  end.

(** [[:;8=][\-\^]?[)D(PO3]+] at the head of [l]: the matched text. *)
Definition mouths (pre r : str) : option str :=
  match span mouth r with
  | ([], _) => None
  | (m, _) => Some (pre ++ m)
  end.

Definition match_emoticon (l : str) : option str :=
  match l with
  | e :: r =>
    if eyes e then
      match r with
      | n :: r' =>
        if nose n then
          match mouths [e; n] r' with
          | Some m => Some m
          | None => mouths [e] r
          end
        else mouths [e] r
      | [] => None
      end
    else None
  | [] => None
  end.

Section Pattern.
Context {rt : Runtime}.

(** [\b] between two neighbouring positions; outside the text there is
    no word character. *)
Definition is_word (c : option N) : bool :=
  match c with Some c => word_char c | None => false end.
Definition boundary (before after : option N) : bool :=
  xorb (is_word before) (is_word after).

(** The backtracking of [[а-яё]+\b]: the longest [k <= n], [k >= 1],
    with a word boundary after the first [k] characters of [l]. *)
Fixpoint backtrack (n : nat) (l : str) : option nat :=
  match n with
  | O => None
  | S k =>
    if boundary (l !! k) (l !! n) then Some n else backtrack k l
  end.

(** Group 1 of the pattern, a word boundary, [[а-яё]+], a word boundary
    and a greedy run of [[!?.,;]], at the head of [l]; [prev] is the
    character before it.  The result is the text of the group. *)
Definition match_word (prev : option N) (l : str) : option str :=
  if boundary prev (head l) then
    match backtrack (length (fst (span cyr_class l))) l with
    | Some k => Some (take k l ++ fst (span punct (drop k l)))
    | None => None
    end
  else None.

(** One attempt of [comprehensive] at a position: the alternatives in
    the order of the pattern.  The flag tells whether group 1 matched. *)
Definition comprehensive (prev : option N) (l : str) : option (str * bool) :=
  match match_emoticon l with
  | Some m => Some (m, false)
  | None =>
    match l with
    | c :: _ =>
      if emoji_char c then Some ([c], false)
      else
        match match_word prev l with
        | Some w => Some (w, true)
        | None => None
        end
    | [] => None
    end
  end.

(** [comprehensive.finditer(text)]: left to right, a match consumes its
    characters ([skip] counts those still to pass), a failed position is
    passed by one character. *)
Fixpoint finditer (prev : option N) (skip : nat) (l : str)
  : list (str * bool) :=
  match l with
  | [] => []
  | c :: r =>
    match skip with
    | S k => finditer (Some c) k r
    | O =>
      match comprehensive prev l with
      | Some (m, g) => (m, g) :: finditer (Some c) (length m - 1) r
      | None => finditer (Some c) 0 r
      end
    end
  end.

(** [re.sub(r'[!?.,;]+$', '', s)] for a text without line break. *)
Definition strip_punct (s : str) : str :=
  rev (snd (span punct (rev s))).

Definition nonempty (s : str) : bool :=
  match s with [] => false | _ => true end.

(** The body of the loop for one match. *)
Definition token_of_match (m : str * bool) : list Token :=
  let '(text, group1) := m in
  if group1 && nonempty text then
    let clean_word := strip_punct text in
    if nonempty clean_word
    then [ {| value := lower clean_word; original_value := text;
              is_emoji := false |} ]
    else []
  else
    if nonempty text
    then [ {| value := text; original_value := text; is_emoji := true |} ]
    else [].

Definition tokenize_with_positions (text : str) : list Token :=
  let tokens := concat (map token_of_match (finditer None 0 text)) in
  filter (fun t => nonempty (value t)) tokens.

End Pattern.
End TextTokenizerEnhanced.

Import TextTokenizerEnhanced.

(** ** sentiment_analyzer.py *)

(** A [dict] display: a later entry for a key replaces an earlier one. *)
Definition dict_of (entries : list (string * float)) : gmap str float :=
  fold_left (fun d e => <[u e.1 := e.2]> d) entries ∅.

Definition set_of (words : list string) : gset str := list_to_set (map u words).

Record SentimentAnalyzer := {
  _lexicon : gmap str float;
  _booster_words : gmap str float;
  _negation_words : gset str
}.

Definition _load_booster_words : gmap str float := dict_of [
  ("прекрасно", 4.0); ("идеально", 4.0); ("восхитительно", 4.0);
  ("блестяще", 4.0); ("великолепно", 4.0); ("потрясающе", 3.0);
  ("изумительно", 3.0); ("невероятно", 3.0); ("очень", 2.0);
  ("чрезвычайно", 2.0); ("исключительно", 2.0); ("необычайно", 2.0);
  ("довольно", 1.0); ("весьма", 1.0); ("достаточно", 1.0);
  ("абсолютно", 0.0); ("совершенно", 0.0); ("полностью", 0.0);
  ("целиком", 0.0); ("прямо", 0.0); ("просто", 0.0); ("прямо-таки", 0.0);
  ("даже", 0.0); ("вот", 0.0); ("же", 0.0); ("слишком", -1.0);
  ("чрезмерно", -1.0); ("катастрофически", -2.0); ("критически", -2.0);
  ("ужасно", -2.0); ("кошмарно", -2.0); ("отвратительно", -4.0);
  ("омерзительно", -4.0); ("ужасающе", -3.0); ("невыносимо", -3.0);
  ("нестерпимо", -3.0) ]%float.

Definition _load_negation_words : gset str := set_of [
  "не"; "нет"; "ни"; "никогда"; "нисколько"; "никак";
  "ничуть"; "ничего"; "никуда"; "нигде"; "никто"; "ничто" ].

Definition _intensifiers : gset str := set_of [
  "же"; "ведь"; "вот"; "прямо"; "просто"; "действительно";
  "именно"; "точно"; "ровно" ].

(** The tables local to the modifier and the contrast rule. *)
Definition modifiers : gmap str float := dict_of [
  ("вроде", 0.7); ("как бы", 0.6); ("типа", 0.7); ("почти", 0.8);
  ("слегка", 0.8); ("немного", 0.8); ("отчасти", 0.9); ("частично", 0.9);
  ("не совсем", 0.5); ("в некоторой степени", 0.8) ]%float.

Definition contrast_words : gset str := set_of [
  "но"; "однако"; "тем не менее"; "впрочем" ].

Definition excl : N := 33.
Definition quest : N := 63.

(** [range(max(0, index - width), index)] *)
Definition window (width index : nat) : list nat :=
  seq (index - width) (index - (index - width)).

(** A loop [for j in js: t = tokens[j]; if <f t hits>: return ...]:
    the first position of [js] on which [f] answers, with the answer.
    Every [j] the rules pass is below the index of a token of the list,
    so [tokens[j]] exists. *)
Fixpoint first_hit {A} (f : Token -> option A) (tokens : list Token)
  (js : list nat) : option (nat * A) :=
  match js with
  | [] => None
  | j :: js' =>
    match tokens !! j ≫= f with
    | Some a => Some (j, a)
    | None => first_hit f tokens js'
    end
  end.

Definition word_in (s : gset str) (t : Token) : option unit :=
  if negb (is_emoji t) && bool_decide (value t ∈ s) then Some tt else None.

Definition word_get (d : gmap str float) (t : Token) : option float :=
  if negb (is_emoji t) then d !! value t else None.

Section Rules.
Context {rt : Runtime}.
Variable self : SentimentAnalyzer.

Definition _apply_negation_rules_enhanced
  (tokens : list Token) (index : nat) (score : float) : float :=
  match first_hit (word_in (_negation_words self)) tokens (window 3 index) with
  | Some (j, _) =>
    let distance := Z.of_nat index - Z.of_nat j in
    let negation_strength := (1.0 - float_of_int (distance - 1) * 0.1)%float in
    (score * -0.74 * negation_strength)%float
  | None => score
  end.

Definition _apply_booster_rules_enhanced
  (tokens : list Token) (index : nat) (score : float) : float :=
  let before :=
    if (0 <? index)%nat
    then tokens !! (index - 1)%nat ≫= word_get (_booster_words self)
    else None in
  match before with
  | Some boost_strength => (score * boost_strength)%float
  | None =>
    let after :=
      if Z.of_nat index <? Z.of_nat (length tokens) - 1
      then tokens !! (index + 1)%nat ≫= word_in _intensifiers
      else None in
    match after with
    | Some _ => (score * 1.1)%float
    | None => score
    end
  end.

Definition _apply_emoji_punctuation_rules (token : Token) (score : float)
  : float :=
  if is_emoji token then score
  else if contains excl (original_value token) then
    let exclamation_count := count excl (original_value token) in
    (score * (1.0 + float_of_int exclamation_count * 0.1))%float
  else if contains quest (original_value token) then
    let question_count := count quest (original_value token) in
    (score * (1.0 - float_of_int question_count * 0.05))%float
  else score.

(** The loops of the modifier and of the contrast rule, over the table
    each rule declares. *)
Definition modifier_rule (table : gmap str float)
  (tokens : list Token) (index : nat) (score : float) : float :=
  match first_hit (word_get table) tokens (window 2 index) with
  | Some (_, factor) => (score * factor)%float
  | None => score
  end.

Definition _apply_modifier_rules_enhanced :=
  modifier_rule modifiers.

Definition contrast_rule (words : gset str)
  (tokens : list Token) (index : nat) (score : float) : float :=
  match first_hit (word_in words) tokens (window 5 index) with
  | Some _ => (score * 1.3)%float
  | None => score
  end.

Definition _apply_contrast_rules_enhanced :=
  contrast_rule contrast_words.

Definition _apply_caps_rules (token_value : str) (score : float) : float :=
  if isupper token_value && (1 <? length token_value)%nat
  then (score * 1.2)%float else score.

(** The counting loop of the global rule: emoji tokens with a positive
    and with a negative lexicon score ([get] with default 0). *)
Definition count_emojis (tokens : list Token) : Z * Z :=
  fold_left (fun '(positive_emojis, negative_emojis) token =>
    if is_emoji token then
      let emoji_score := default 0%float (_lexicon self !! value token) in
      if (0 <? emoji_score)%float
      then (positive_emojis + 1, negative_emojis)
      else if (emoji_score <? 0)%float
      then (positive_emojis, negative_emojis + 1)
      else (positive_emojis, negative_emojis)
    else (positive_emojis, negative_emojis)) tokens (0, 0).

Definition total (c : N) (tokens : list Token) : Z :=
  fold_left Z.add (map (fun t => count c (original_value t)) tokens) 0.

Definition _apply_global_emoji_rules (tokens : list Token) (score : float)
  : float :=
  let '(positive_emojis, negative_emojis) := count_emojis tokens in
  let score :=
    if 1 <? positive_emojis
    then (score * (1.0 + float_of_int positive_emojis * 0.05))%float
    else score in
  let score :=
    if 1 <? negative_emojis
    then (score * (1.0 - float_of_int negative_emojis * 0.05))%float
    else score in
  let total_exclamations := total excl tokens in
  let total_questions := total quest tokens in
  let score :=
    if 0 <? total_exclamations then
      let exclamation_boost :=
        (1.0 + float_of_int (Z.min total_exclamations 10) * 0.05)%float in
      (score * exclamation_boost)%float
    else score in
  let score :=
    if 3 <? total_questions then
      let question_penalty :=
        (1.0 - float_of_int (Z.min (total_questions - 3) 5) * 0.03)%float in
      (score * question_penalty)%float
    else score in
  score.

(** The body of the scoring loop for the token at position [i]: its
    adjusted score when its value is a key of the lexicon. *)
Definition word_score (tokens : list Token) (i : nat) (token : Token)
  : option float :=
  match _lexicon self !! value token with
  | None => None
  | Some word_score =>
    let word_score :=
      if negb (is_emoji token)
      then _apply_negation_rules_enhanced tokens i word_score
      else word_score in
    let word_score := _apply_booster_rules_enhanced tokens i word_score in
    let word_score :=
      if negb (is_emoji token)
      then _apply_caps_rules (value token) word_score
      else word_score in
    let word_score := _apply_emoji_punctuation_rules token word_score in
    let word_score := _apply_modifier_rules_enhanced tokens i word_score in
    let word_score := _apply_contrast_rules_enhanced tokens i word_score in
    Some word_score
  end.

(** [for i, token in enumerate(tokens)], from position [i] on. *)
Fixpoint vader_loop (tokens : list Token) (i : nat) (rest : list Token)
  (score : float) (word_count : Z) : float * Z :=
  match rest with
  | [] => (score, word_count)
  | token :: rest' =>
    match word_score tokens i token with
    | Some w => vader_loop tokens (S i) rest' (score + w)%float (word_count + 1)
    | None => vader_loop tokens (S i) rest' score word_count
    end
  end.

Definition _apply_vader_rules_enhanced (tokens : list Token) : float * Z :=
  let '(score, word_count) := vader_loop tokens 0 tokens 0%float 0 in
  (_apply_global_emoji_rules tokens score, word_count).

(** The normalizer of the repository ([normalizer.RussianNormalizer]) is
    not among the source files; [analyze] takes it as a function
    from the word tokens to their normalized forms. *)
Variable normalize : list Token -> list Token.

(** The token list [analyze] hands to the rules. *)
Definition all_tokens (text : str) : list Token :=
  let tokens := tokenize_with_positions text in
  let emoji_tokens := filter is_emoji tokens in
  let word_tokens := filter (fun token => negb (is_emoji token)) tokens in
  let normalized_words := normalize word_tokens in
  normalized_words ++ emoji_tokens.

Definition analyze (text : str) : result SentimentResult :=
  let '(score, word_count) := _apply_vader_rules_enhanced (all_tokens text) in
  let* normalized_score := _normalize_vader_score score word_count in
  Ok {| score := normalized_score;
        sentiment := _get_sentiment_label normalized_score;
        word_count := word_count |}.

End Rules.

(** Modelled from the spec: the contract of the missing normalizer (one
    output token per word token, in order; each output is a word token
    that keeps its [original_value]; only [value] is replaced). *)
Definition normalizer_contract (normalize : list Token -> list Token) : Prop :=
  forall ws,
    Forall (fun t => is_emoji t = false) ws ->
    Forall2 (fun w t => is_emoji t = false /\
                        original_value t = original_value w)
            ws (normalize ws).

(** The normalizer in its degraded mode: every word keeps its form. *)
Definition unnormalized (ws : list Token) : list Token := ws.

(** ** The analyzer as an object

    [SentimentAnalyzer] is a Python object that lives as long as the
    program: every call of [analyze] is given the same [self], and what
    a call leaves in its attributes is what the next call finds.  The
    methods are written here as they act on the object. *)

Module Object.

(** A method: from the object as the call finds it to what the call
    returns or raises and the object as the call leaves it. *)
Definition method (A : Type) : Type :=
  SentimentAnalyzer -> result A * SentimentAnalyzer.

Definition ret {A} (a : A) : method A := fun self => (Ok a, self).

Definition bind {A B} (m : method A) (k : A -> method B) : method B :=
  fun self =>
    match m self with
    | (Ok a, self') => k a self'
    | (Raise e, self') => (Raise e, self')
    end.

(** [self.name], read. *)
Definition attribute {A} (name : SentimentAnalyzer -> A) : method A :=
  fun self => (Ok (name self), self).

(** A computation in which [self] does not occur. *)
Definition lift {A} (r : result A) : method A := fun self => (r, self).

#[global] Instance method_ret : MRet method := @ret.
#[global] Instance method_bind : MBind method :=
  fun A B k m => bind m k.

Section Methods.
Context {rt : Runtime}.
Variable normalize : list Token -> list Token.

(** [not token.is_emoji and token.value in self.name] *)
Definition in_attribute (name : SentimentAnalyzer -> gset str) (t : Token)
  : method (option unit) :=
  if is_emoji t then ret None
  else
    words ← attribute name;
    ret (if bool_decide (value t ∈ words) then Some tt else None).

(** [for j in range(...)], leaving at the first token the test
    accepts. *)
Fixpoint scan {A} (test : Token -> method (option A)) (tokens : list Token)
  (js : list nat) : method (option (nat * A)) :=
  match js with
  | [] => ret None
  | j :: js' =>
    match tokens !! j with
    | Some prev_token =>
      hit ← test prev_token;
      match hit with
      | Some a => ret (Some (j, a))
      | None => scan test tokens js'
      end
    | None => scan test tokens js'
    end
  end.

Definition _apply_negation_rules_enhanced
  (tokens : list Token) (index : nat) (score : float) : method float :=
  hit ← scan (in_attribute _negation_words) tokens (window 3 index);
  match hit with
  | Some (j, _) =>
    let distance := Z.of_nat index - Z.of_nat j in
    let negation_strength := (1.0 - float_of_int (distance - 1) * 0.1)%float in
    ret (score * -0.74 * negation_strength)%float
  | None => ret score
  end.

(** [self._intensifiers] is a property that builds its set anew and
    reads no attribute. *)
Definition _apply_booster_rules_enhanced
  (tokens : list Token) (index : nat) (score : float) : method float :=
  before ←
    (if (0 <? index)%nat then
       match tokens !! (index - 1)%nat with
       | Some prev_token =>
         if is_emoji prev_token then ret None
         else
           booster_words ← attribute _booster_words;
           ret (booster_words !! value prev_token)
       | None => ret None
       end
     else ret None);
  match before with
  | Some boost_strength => ret (score * boost_strength)%float
  | None =>
    let after :=
      if Z.of_nat index <? Z.of_nat (length tokens) - 1
      then tokens !! (index + 1)%nat ≫= word_in _intensifiers
      else None in
    match after with
    | Some _ => ret (score * 1.1)%float
    | None => ret score
    end
  end.

(** The counting loop of the global rule. *)
Fixpoint count_emojis (tokens : list Token) (positive_emojis negative_emojis : Z)
  : method (Z * Z) :=
  match tokens with
  | [] => ret (positive_emojis, negative_emojis)
  | token :: rest =>
    if is_emoji token then
      lexicon ← attribute _lexicon;
      let emoji_score := default 0%float (lexicon !! value token) in
      if (0 <? emoji_score)%float
      then count_emojis rest (positive_emojis + 1) negative_emojis
      else if (emoji_score <? 0)%float
      then count_emojis rest positive_emojis (negative_emojis + 1)
      else count_emojis rest positive_emojis negative_emojis
    else count_emojis rest positive_emojis negative_emojis
  end.

Definition _apply_global_emoji_rules (tokens : list Token) (score : float)
  : method float :=
  counts ← count_emojis tokens 0 0;
  let '(positive_emojis, negative_emojis) := counts in
  let score :=
    if 1 <? positive_emojis
    then (score * (1.0 + float_of_int positive_emojis * 0.05))%float
    else score in
  let score :=
    if 1 <? negative_emojis
    then (score * (1.0 - float_of_int negative_emojis * 0.05))%float
    else score in
  let total_exclamations := total excl tokens in
  let total_questions := total quest tokens in
  let score :=
    if 0 <? total_exclamations then
      let exclamation_boost :=
        (1.0 + float_of_int (Z.min total_exclamations 10) * 0.05)%float in
      (score * exclamation_boost)%float
    else score in
  let score :=
    if 3 <? total_questions then
      let question_penalty :=
        (1.0 - float_of_int (Z.min (total_questions - 3) 5) * 0.03)%float in
      (score * question_penalty)%float
    else score in
  ret score.

(** [for i, token in enumerate(tokens)], from position [i] on.  The
    caps, punctuation, modifier and contrast rules do not mention
    [self]. *)
Fixpoint vader_loop (tokens : list Token) (i : nat) (rest : list Token)
  (score : float) (word_count : Z) : method (float * Z) :=
  match rest with
  | [] => ret (score, word_count)
  | token :: rest' =>
    lexicon ← attribute _lexicon;
    match lexicon !! value token with
    | Some word_score =>
      word_score ←
        (if negb (is_emoji token)
         then _apply_negation_rules_enhanced tokens i word_score
         else ret word_score);
      word_score ← _apply_booster_rules_enhanced tokens i word_score;
      let word_score :=
        if negb (is_emoji token)
        then _apply_caps_rules (value token) word_score
        else word_score in
      let word_score := _apply_emoji_punctuation_rules token word_score in
      let word_score := _apply_modifier_rules_enhanced tokens i word_score in
      let word_score := _apply_contrast_rules_enhanced tokens i word_score in
      vader_loop tokens (S i) rest' (score + word_score)%float (word_count + 1)
    | None => vader_loop tokens (S i) rest' score word_count
    end
  end.

Definition _apply_vader_rules_enhanced (tokens : list Token)
  : method (float * Z) :=
  totals ← vader_loop tokens 0 tokens 0%float 0;
  let '(score, word_count) := totals in
  score ← _apply_global_emoji_rules tokens score;
  ret (score, word_count).

(** [analyze]: the tokenizer and the normalizer are objects made anew
    in every call; [_normalize_vader_score] and [_get_sentiment_label]
    do not mention [self]. *)
Definition analyze (text : str) : method SentimentResult :=
  let tokens := tokenize_with_positions text in
  let emoji_tokens := filter is_emoji tokens in
  let word_tokens := filter (fun token => negb (is_emoji token)) tokens in
  let normalized_words := normalize word_tokens in
  let all_tokens := normalized_words ++ emoji_tokens in
  totals ← _apply_vader_rules_enhanced all_tokens;
  let '(score, word_count) := totals in
  normalized_score ← lift (_normalize_vader_score score word_count);
  ret {| score := normalized_score;
         sentiment := _get_sentiment_label normalized_score;
         word_count := word_count |}.

(** One request of a session, as program.py makes it: the tokens of the
    text and what [analyze] returns or raises, an exception being
    caught by the caller; the object goes on to the next request as
    this one leaves it. *)
Definition request (text : str) (self : SentimentAnalyzer)
  : (list Token * result SentimentResult) * SentimentAnalyzer :=
  let '(outcome, self') := analyze text self in
  ((tokenize_with_positions text, outcome), self').

Fixpoint session (texts : list str) (self : SentimentAnalyzer)
  : list (list Token * result SentimentResult) * SentimentAnalyzer :=
  match texts with
  | [] => ([], self)
  | text :: rest =>
    let '(served, self') := request text self in
    let '(later, self'') := session rest self' in
    (served :: later, self'')
  end.

End Methods.
End Object.

(** ** Loading the lexicon *)

(** [str.strip], [str.split] and [str.replace] on one-character
    arguments. *)
Definition whitespace (c : N) : bool :=
  between 0x09 0x0D c || between 0x1C 0x20 c || (c =? 0x85)%N
  || (c =? 0xA0)%N || (c =? 0x1680)%N || between 0x2000 0x200A c
  || (c =? 0x2028)%N || (c =? 0x2029)%N || (c =? 0x202F)%N
  || (c =? 0x205F)%N || (c =? 0x3000)%N.

Definition lstrip (s : str) : str := snd (span whitespace s).
Definition strip (s : str) : str := rev (lstrip (rev (lstrip s))).

Fixpoint split (sep : N) (s : str) : list str :=
  match s with
  | [] => [[]]
  | c :: r =>
    if (c =? sep)%N then [] :: split sep r
    else
      match split sep r with
      | p :: ps => (c :: p) :: ps
      | [] => [[c]]
      end
  end.

Definition replace (a b : N) (s : str) : str :=
  map (fun c => if (c =? a)%N then b else c) s.

Definition tab : N := 9.
Definition comma : N := 44.
Definition dot : N := 46.

(** What the loader finds under the path of [vader_lexicon.txt]: no
    file; a file that [open] refuses; or a file whose iteration yields
    [lines] one after the other and then either ends or, with [fault]
    set, raises a read or decoding error.  With [fault] set, [lines]
    are the lines the iteration has yielded when it fails, not the
    lines the file has before the bad place: the text is decoded block
    by block, and the lines of a block that does not decode are not
    yielded.  Both attempts of the loader are given the same lines. *)
Inductive lexicon_file :=
| Missing
| Unreadable
| Lines (lines : list str) (fault : bool).

Section Loader.
Context {rt : Runtime}.

(** The body of [for line in file]; [prepare] is what the attempt does
    to the score field before [float]. *)
Definition read_line (prepare : str -> str) (lexicon : gmap str float)
  (line : str) : gmap str float :=
  let line := strip line in
  if nonempty line then
    match split tab line with
    | word :: field :: _ =>
      match float_of_str (prepare field) with
      | Some score => <[strip word := score]> lexicon
      | None => lexicon
      end
    | _ => lexicon
    end
  else lexicon.

(** One [try] block: the dictionary it leaves behind, and whether an
    exception left the block. *)
Definition attempt (prepare : str -> str) (file : lexicon_file)
  (lexicon : gmap str float) : gmap str float * bool :=
  match file with
  | Missing => (lexicon, false)
  | Unreadable => (lexicon, true)
  | Lines lines fault => (fold_left (read_line prepare) lines lexicon, fault)
  end.

(** The first attempt and, in its handler, the second one, which reads
    the score field as it stands. *)
Definition _load_tonal_lexicon (file : lexicon_file)
  (lexicon : gmap str float) : gmap str float :=
  let '(lexicon, raised) :=
    attempt (fun field => strip (replace comma dot field)) file lexicon in
  if raised then fst (attempt (fun field => field) file lexicon)
  else lexicon.

(** [SentimentAnalyzer()] *)
Definition new (file : lexicon_file) : SentimentAnalyzer :=
  {| _lexicon := _load_tonal_lexicon file ∅;
     _booster_words := _load_booster_words;
     _negation_words := _load_negation_words |}.

End Loader.

(** ** The interpreter's functions on ASCII and Cyrillic text

    An instance of [Runtime] for running examples.  [\w] and [isupper]
    are those of CPython on text made of ASCII and of the Cyrillic block
    U+0400..U+045F; [float] is CPython's on plain decimals, an optional
    sign and digits with an optional point, of at most fifteen digits,
    and refuses everything else. *)
Module Basic.

Definition digit (c : N) : bool := between 48 57 c.

Definition w_class (c : N) : bool :=
  digit c || between 65 90 c || between 97 122 c || (c =? 95)%N
  || between 0x400 0x481 c || between 0x48A 0x52F c
  || between 0x1C80 0x1C88 c.

Definition upper_letter (c : N) : bool :=
  between 65 90 c || between 0x400 0x42F c.
Definition lower_letter (c : N) : bool :=
  between 97 122 c || between 0x430 0x45F c.
Definition all_upper (s : str) : bool :=
  existsb upper_letter s && forallb (fun c => negb (lower_letter c)) s.

Fixpoint digits (acc : Z) (s : str) : option Z :=
  match s with
  | [] => Some acc
  | c :: r =>
    if digit c then digits (acc * 10 + (Z.of_N c - 48)) r else None
  end.

(** [whole.frac] is the quotient of two integers that are floats, so
    one correctly rounded division gives the nearest float. *)
Definition decimal (s : str) : option float :=
  let '(whole, frac) :=
    match split dot s with
    | [w] => (w, [])
    | [w; f] => (w, f)
    | _ => ([], [])
    end in
  if nonempty (whole ++ frac) && (length (whole ++ frac) <=? 15)%nat then
    m ← digits 0 (whole ++ frac);
    Some (float_of_int m / float_of_int (10 ^ Z.of_nat (length frac)))%float
  else None.

Definition parse_float (s : str) : option float :=
  match strip s with
  | 45%N :: r => PrimFloat.opp <$> decimal r
  | 43%N :: r => decimal r
  | r => decimal r
  end.

#[export] Instance runtime : Runtime :=
  {| word_char := w_class;
     isupper := all_upper;
     float_of_str := parse_float |}.

End Basic.

(** ** A sample lexicon file and analyzer *)

Module Sample.
Import Basic.

Definition entry (word field : string) : str := u word ++ [tab] ++ u field ++ [10%N].

Definition file : lexicon_file :=
  Lines [ entry "хорошо" "2.0"; entry "плохо" "-2.0"; entry "отлично" "3,0";
          entry "ужасно" "-4.0"; entry ":)" "1.5" ] false.

Definition analyzer : SentimentAnalyzer := new file.

Definition word (v : string) : Token :=
  {| value := u v; original_value := u v; is_emoji := false |}.

End Sample.

(** ** Vocabulary of the properties *)

(** The result for a text in which nothing was scored. *)
Definition neutral_result : SentimentResult :=
  {| score := 0; sentiment := Neutral; word_count := 0 |}.

(** A token the negation rule reacts to. *)
Definition negator (self : SentimentAnalyzer) (t : Token) : Prop :=
  is_emoji t = false /\ value t ∈ _negation_words self.

Definition space : N := 32.
Definition has_space (v : str) : bool := contains space v.

(** Characters the pattern can put into group 1, and into a match of
    one of the emoji alternatives. *)
Definition word_text_char (c : N) : bool := cyr_class c || punct c.
Definition emoji_text_char (c : N) : bool :=
  eyes c || nose c || mouth c || emoji_char c.

(** A match of [comprehensive], by the group that made it. *)
Definition match_chars (m : str * bool) : Prop :=
  Forall (fun c => (if m.2 then word_text_char c else emoji_text_char c)
                   = true) m.1.

(** What every token of the tokenizer satisfies. *)
Definition value_from_match (t : Token) : Prop :=
  if is_emoji t
  then Forall (fun c => emoji_text_char c = true) (value t)
  else Forall (fun c => exists c0, word_text_char c0 = true /\
                                   c = lower_char c0) (value t).

(** The modifier table and the contrast set without their keys of
    several words. *)
Definition modifiers_single : gmap str float := dict_of [
  ("вроде", 0.7); ("типа", 0.7); ("почти", 0.8); ("слегка", 0.8);
  ("немного", 0.8); ("отчасти", 0.9); ("частично", 0.9) ]%float.

Definition contrast_single : gset str := set_of [ "но"; "однако"; "впрочем" ].

Definition multi_word_keys : list str :=
  [ u "как бы"; u "не совсем"; u "в некоторой степени"; u "тем не менее" ].

(** A normalizer within the contract that gives the word "как" the base
    form "как бы", of two words, and leaves every other word as it
    is. *)
Definition two_word_lemma (ws : list Token) : list Token :=
  map (fun t =>
         if bool_decide (value t = u "как")
         then {| value := u "как бы"; original_value := original_value t;
                 is_emoji := false |}
         else t) ws.

(** ** stem_processor.py *)

Module MyStemProcessor.

(** The encodings [fix_my_stem_encoding] tries. *)
Inductive encoding := windows_1251 | cp866 | koi8_r.

(** The upper halves of the three code pages as the codecs of CPython
    have them: the code point of each byte from 0x80 to 0xFF, 0 for the
    one byte windows-1251 leaves undefined.  Below 0x80 all three are
    ASCII. *)
Definition code_page (e : encoding) : list N :=
  match e with
  | windows_1251 =>
    [       0x402; 0x403; 0x201A; 0x453; 0x201E; 0x2026; 0x2020; 0x2021;
      0x20AC; 0x2030; 0x409; 0x2039; 0x40A; 0x40C; 0x40B; 0x40F;
      0x452; 0x2018; 0x2019; 0x201C; 0x201D; 0x2022; 0x2013; 0x2014;
      0x0; 0x2122; 0x459; 0x203A; 0x45A; 0x45C; 0x45B; 0x45F;
      0xA0; 0x40E; 0x45E; 0x408; 0xA4; 0x490; 0xA6; 0xA7;
      0x401; 0xA9; 0x404; 0xAB; 0xAC; 0xAD; 0xAE; 0x407;
      0xB0; 0xB1; 0x406; 0x456; 0x491; 0xB5; 0xB6; 0xB7;
      0x451; 0x2116; 0x454; 0xBB; 0x458; 0x405; 0x455; 0x457;
      0x410; 0x411; 0x412; 0x413; 0x414; 0x415; 0x416; 0x417;
      0x418; 0x419; 0x41A; 0x41B; 0x41C; 0x41D; 0x41E; 0x41F;
      0x420; 0x421; 0x422; 0x423; 0x424; 0x425; 0x426; 0x427;
      0x428; 0x429; 0x42A; 0x42B; 0x42C; 0x42D; 0x42E; 0x42F;
      0x430; 0x431; 0x432; 0x433; 0x434; 0x435; 0x436; 0x437;
      0x438; 0x439; 0x43A; 0x43B; 0x43C; 0x43D; 0x43E; 0x43F;
      0x440; 0x441; 0x442; 0x443; 0x444; 0x445; 0x446; 0x447;
      0x448; 0x449; 0x44A; 0x44B; 0x44C; 0x44D; 0x44E; 0x44F ]%N
  | cp866 =>
    [       0x410; 0x411; 0x412; 0x413; 0x414; 0x415; 0x416; 0x417;
      0x418; 0x419; 0x41A; 0x41B; 0x41C; 0x41D; 0x41E; 0x41F;
      0x420; 0x421; 0x422; 0x423; 0x424; 0x425; 0x426; 0x427;
      0x428; 0x429; 0x42A; 0x42B; 0x42C; 0x42D; 0x42E; 0x42F;
      0x430; 0x431; 0x432; 0x433; 0x434; 0x435; 0x436; 0x437;
      0x438; 0x439; 0x43A; 0x43B; 0x43C; 0x43D; 0x43E; 0x43F;
      0x2591; 0x2592; 0x2593; 0x2502; 0x2524; 0x2561; 0x2562; 0x2556;
      0x2555; 0x2563; 0x2551; 0x2557; 0x255D; 0x255C; 0x255B; 0x2510;
      0x2514; 0x2534; 0x252C; 0x251C; 0x2500; 0x253C; 0x255E; 0x255F;
      0x255A; 0x2554; 0x2569; 0x2566; 0x2560; 0x2550; 0x256C; 0x2567;
      0x2568; 0x2564; 0x2565; 0x2559; 0x2558; 0x2552; 0x2553; 0x256B;
      0x256A; 0x2518; 0x250C; 0x2588; 0x2584; 0x258C; 0x2590; 0x2580;
      0x440; 0x441; 0x442; 0x443; 0x444; 0x445; 0x446; 0x447;
      0x448; 0x449; 0x44A; 0x44B; 0x44C; 0x44D; 0x44E; 0x44F;
      0x401; 0x451; 0x404; 0x454; 0x407; 0x457; 0x40E; 0x45E;
      0xB0; 0x2219; 0xB7; 0x221A; 0x2116; 0xA4; 0x25A0; 0xA0 ]%N
  | koi8_r =>
    [       0x2500; 0x2502; 0x250C; 0x2510; 0x2514; 0x2518; 0x251C; 0x2524;
      0x252C; 0x2534; 0x253C; 0x2580; 0x2584; 0x2588; 0x258C; 0x2590;
      0x2591; 0x2592; 0x2593; 0x2320; 0x25A0; 0x2219; 0x221A; 0x2248;
      0x2264; 0x2265; 0xA0; 0x2321; 0xB0; 0xB2; 0xB7; 0xF7;
      0x2550; 0x2551; 0x2552; 0x451; 0x2553; 0x2554; 0x2555; 0x2556;
      0x2557; 0x2558; 0x2559; 0x255A; 0x255B; 0x255C; 0x255D; 0x255E;
      0x255F; 0x2560; 0x2561; 0x401; 0x2562; 0x2563; 0x2564; 0x2565;
      0x2566; 0x2567; 0x2568; 0x2569; 0x256A; 0x256B; 0x256C; 0xA9;
      0x44E; 0x430; 0x431; 0x446; 0x434; 0x435; 0x444; 0x433;
      0x445; 0x438; 0x439; 0x43A; 0x43B; 0x43C; 0x43D; 0x43E;
      0x43F; 0x44F; 0x440; 0x441; 0x442; 0x443; 0x436; 0x432;
      0x44C; 0x44B; 0x437; 0x448; 0x44D; 0x449; 0x447; 0x44A;
      0x42E; 0x410; 0x411; 0x426; 0x414; 0x415; 0x424; 0x413;
      0x425; 0x418; 0x419; 0x41A; 0x41B; 0x41C; 0x41D; 0x41E;
      0x41F; 0x42F; 0x420; 0x421; 0x422; 0x423; 0x416; 0x412;
      0x42C; 0x42B; 0x417; 0x428; 0x42D; 0x429; 0x427; 0x42A ]%N
  end.

(** [bytes.decode(encoding)]; [None] stands for [UnicodeDecodeError]. *)
Definition decode_byte (e : encoding) (b : N) : option N :=
  if (b <? 128)%N then Some b
  else
    match code_page e !! N.to_nat (b - 128) with
    | Some 0%N => None
    | Some c => Some c
    | None => None
    end.

Definition decode (e : encoding) (bs : list N) : option str :=
  mapM (decode_byte e) bs.

(** [text.encode('iso-8859-1')]: the code points as bytes; [None]
    stands for [UnicodeEncodeError]. *)
Definition encode_latin1 (text : str) : option (list N) :=
  if forallb (fun c => (c <? 256)%N) text then Some text else None.

(** The class of the pattern of [is_valid_russian_text]: both cases of
    the Russian alphabet, white space and the hyphen. *)
Definition russian_class (c : N) : bool :=
  between 0x430 0x44F c || (c =? 0x451)%N || between 0x410 0x42F c
  || (c =? 0x401)%N || whitespace c || (c =? 45)%N.

(** [$]: the end of the text, or the place before a line feed that
    ends it. *)
Definition at_end (rest : str) : bool :=
  match rest with
  | [] => true
  | [10%N] => true
  | _ => false
  end.

(** The class taken [n] times, then fewer and fewer, until [$] holds
    after it: the backtracking of the pattern. *)
Fixpoint give_back (n : nat) (text : str) : bool :=
  match n with
  | O => false
  | S k => at_end (drop n text) || give_back k text
  end.

Definition is_valid_russian_text (text : str) : bool :=
  give_back (length (span russian_class text).1) text.

(** The loop over [encodings_to_try]. *)
Fixpoint try_encodings (text : str) (encodings : list encoding) : str :=
  match encodings with
  | [] => text
  | encoding_name :: rest =>
    match encode_latin1 text ≫= decode encoding_name with
    | Some decoded =>
      if is_valid_russian_text decoded then decoded
      else try_encodings text rest
    | None => try_encodings text rest
    end
  end.

Definition fix_my_stem_encoding (text : str) : str :=
  if nonempty text then
    if is_valid_russian_text text then text
    else try_encodings text [windows_1251; cp866; koi8_r]
  else text.

Definition pos_map : gmap str str :=
  list_to_map
    [ (u "S", u "NOUN"); (u "A", u "ADJ"); (u "V", u "VERB");
      (u "ADV", u "ADV"); (u "PR", u "PREP"); (u "CONJ", u "CONJ");
      (u "PART", u "PART"); (u "SPRO", u "PRON"); (u "NUM", u "NUM") ].

Definition extract_part_of_speech (grammar_info : str) : str :=
  if nonempty grammar_info then
    match split comma grammar_info with
    | [] => u "UNKN"
    | first_part :: _ => default (u "UNKN") (pos_map !! first_part)
    end
  else u "UNKN".

End MyStemProcessor.

(** ** program.py *)

(** What the operating system supplies to [_get_text_from_file]:
    whether a path exists, and what [open] with an encoding followed by
    [readlines] gives, the lines, a [UnicodeDecodeError], or another
    error. *)
Inductive file_encoding := enc_utf_8 | enc_cp1251 | enc_windows_1251 | enc_koi8_r.

Inductive read_outcome :=
| DecodeError
| OtherError
| Content (lines : list str).

Class FileSystem := {
  path_exists : str -> bool;
  readlines : str -> file_encoding -> read_outcome
}.

Module Program.

(** What leaves a call otherwise than by [return]: the [EOFError] of
    [input] at the end of the input, an exception of [analyze], the
    [SystemExit] of [exit(0)], and the [KeyboardInterrupt] of [input]
    when the user interrupts the program while it waits. *)
Inductive raised :=
| EOFError
| AnalysisError (e : exn)
| SystemExit
| KeyboardInterrupt.

(** The subclasses of [Exception], which [except Exception] catches.
    [SystemExit] and [KeyboardInterrupt] are none: the first ends the
    program, the second is caught by the [except KeyboardInterrupt] of
    the script around [main] only. *)
Definition is_exception (e : raised) : bool :=
  match e with
  | EOFError | AnalysisError _ => true
  | SystemExit | KeyboardInterrupt => false
  end.

(** What the console has for a call of [input]: a line, without its
    line break, or an interrupt from the keyboard.  The program waits
    nowhere else, and interrupts are taken there. *)
Inductive event :=
| Line (s : str)
| Interrupt.

(** What program.py prints; one constructor for each [print], the
    lines of the menu, of the banner and of the report taken together.
    The lines the constructor of the analyzer prints about the lexicon
    are not recorded. *)
Inductive message :=
| Banner
| Menu
| Goodbye
| BadFormat
| AskPath
| EmptyPath
| FileNotFound (path : str)
| FileRead (characters : nat)
| NoEncodingFits
| FileError
| AskText
| EmptyText
| Analyzing
| Report (r : SentimentResult)
| ErrorOccurred (e : raised).

(** A call that reads the console and prints: from what the console
    still has to its value or what it raised, what the console has
    left, and what it printed. *)
Definition console (A : Type) : Type :=
  list event -> (A + raised) * list event * list message.

Definition ret {A} (a : A) : console A := fun stdin => (inl a, stdin, []).

Definition raise {A} (e : raised) : console A :=
  fun stdin => (inr e, stdin, []).

Definition bind {A B} (m : console A) (k : A -> console B) : console B :=
  fun stdin =>
    match m stdin with
    | (inl a, stdin', out) =>
      let '(r, stdin'', out') := k a stdin' in (r, stdin'', out ++ out')
    | (inr e, stdin', out) => (inr e, stdin', out)
    end.

Definition print (m : message) : console unit :=
  fun stdin => (inl tt, stdin, [m]).

(** [input()] *)
Definition input : console str :=
  fun stdin =>
    match stdin with
    | Line line :: rest => (inl line, rest, [])
    | Interrupt :: rest => (inr KeyboardInterrupt, rest, [])
    | [] => (inr EOFError, [], [])
    end.

#[global] Instance console_ret : MRet console := @ret.
#[global] Instance console_bind : MBind console :=
  fun A B k m => bind m k.

(** [s.lower() == "exit"].  Outside ASCII [str.lower] gives a character
    outside ASCII again, but for U+0130, which becomes "i" followed by
    U+0307, and U+212A, which becomes "k"; neither result is in the
    keyword, so the test is that of the ASCII letters. *)
Definition ascii_lower (s : str) : str :=
  map (fun c => if between 65 90 c then (c + 32)%N else c) s.

Definition exit_keyword : str := u "exit".

Definition is_exit (user_input : str) : bool :=
  bool_decide (ascii_lower user_input = exit_keyword).

(** [" ".join(parts)] *)
Fixpoint join (parts : list str) : str :=
  match parts with
  | [] => []
  | [p] => p
  | p :: rest => p ++ space :: join rest
  end.

Section Program.
Context {rt : Runtime} {fs : FileSystem}.
Variable normalize : list Token -> list Token.

Definition _get_text_from_console : console (option str) :=
  print AskText;;
  line ← input;
  let text := strip line in
  if nonempty text then ret (Some text)
  else print EmptyText;; ret None.

(** The loop over the encodings, inside the outer [try]. *)
Fixpoint read_with (file_path : str) (encodings : list file_encoding)
  : console (option str) :=
  match encodings with
  | [] => print NoEncodingFits;; ret None
  | encoding :: rest =>
    match readlines file_path encoding with
    | DecodeError => read_with file_path rest
    | OtherError => print FileError;; ret None
    | Content lines =>
      let non_empty_lines :=
        map strip (filter (fun line => nonempty (strip line)) lines) in
      let text := join non_empty_lines in
      if nonempty text
      then print (FileRead (length text));; ret (Some text)
      else read_with file_path rest
    end
  end.

Definition _get_text_from_file : console (option str) :=
  print AskPath;;
  line ← input;
  let file_path := strip line in
  if nonempty file_path then
    if path_exists file_path then
      read_with file_path
        [enc_utf_8; enc_cp1251; enc_windows_1251; enc_koi8_r]
    else print (FileNotFound file_path);; ret None
  else print EmptyPath;; ret None.

Definition _get_text_for_analysis (user_input : str) : console (option str) :=
  if bool_decide (user_input = u "1") then _get_text_from_file
  else if bool_decide (user_input = u "2") then _get_text_from_console
  else ret None.

Definition run_analyze (analyzer : SentimentAnalyzer) (text : str)
  : console SentimentResult :=
  match analyze analyzer normalize text with
  | Ok r => ret r
  | Raise e => raise (AnalysisError e)
  end.

Definition _process_iteration (analyzer : SentimentAnalyzer) : console unit :=
  print Menu;;
  line ← input;
  let user_input := strip line in
  if is_exit user_input then print Goodbye;; raise SystemExit
  else
    text ← _get_text_for_analysis user_input;
    match text with
    | None => print BadFormat
    | Some text =>
      print Analyzing;;
      sentiment_result ← run_analyze analyzer text;
      print (Report sentiment_result)
    end.

(** [try: ... except Exception as ex: print(...)] *)
Definition _with_exception_handling (action : console unit) : console unit :=
  fun stdin =>
    match action stdin with
    | (inr e, stdin', out) =>
      if is_exception e then (inl tt, stdin', out ++ [ErrorOccurred e])
      else (inr e, stdin', out)
    | (inl tt, stdin', out) => (inl tt, stdin', out)
    end.

(** [while user_input.lower() != self.exit_keyword]: the [user_input]
    of [main] stays the empty string, so the test never ends the loop.
    [rounds] bounds the iterations looked at; a value [inl tt] says the
    loop is still running after them, a value [inr e] that [e] has left
    it and, with it, [main]. *)
Fixpoint loop (analyzer : SentimentAnalyzer) (rounds : nat) : console unit :=
  match rounds with
  | O => ret tt
  | S n =>
    _with_exception_handling (_process_iteration analyzer);;
    loop analyzer n
  end.

Definition main (file : lexicon_file) (rounds : nat) : console unit :=
  let sentiment_analyzer := new file in
  print Banner;;
  loop sentiment_analyzer rounds.

End Program.
End Program.

(** ** Vocabulary of the further properties *)

(** Pieces cut out of a text from left to right, one after the other
    and without overlap; what lies between them is dropped. *)
Inductive cut_from : list str -> str -> Prop :=
| cut_done (l : str) : cut_from [] l
| cut_piece (gap m : str) (ms : list str) (rest : str) :
    cut_from ms rest -> cut_from (m :: ms) (gap ++ m ++ rest).

(** The text of a word match: letters of [cyr_class], then
    punctuation. *)
Definition word_text (m w p : str) : Prop :=
  m = w ++ p /\ w <> [] /\
  Forall (fun c => cyr_class c = true) w /\
  Forall (fun c => punct c = true) p.

(** The text of an emoji match: one character of the emoji ranges, or
    eyes, at most one nose and one or more mouths. *)
Definition emoji_text (m : str) : Prop :=
  (exists c, m = [c] /\ emoji_char c = true) \/
  (exists e n ms, m = e :: n ++ ms /\ eyes e = true /\
     (n = [] \/ exists c, n = [c] /\ nose c = true) /\
     ms <> [] /\ Forall (fun c => mouth c = true) ms).

Definition match_shape (m : str * bool) : Prop :=
  if m.2 then exists w p, word_text m.1 w p else emoji_text m.1.

(** The shape of a token. *)
Definition token_shape (t : Token) : Prop :=
  if is_emoji t
  then value t = original_value t /\ emoji_text (original_value t)
  else exists w p, word_text (original_value t) w p /\ value t = lower w.

(** The token the loop of the tokenizer makes of a match. *)
Definition token_for (m : str * bool) : Token :=
  if m.2
  then {| value := lower (strip_punct m.1); original_value := m.1;
          is_emoji := false |}
  else {| value := m.1; original_value := m.1; is_emoji := true |}.

(** A character with which no match of the pattern begins. *)
Definition no_start (c : N) : Prop :=
  eyes c = false /\ emoji_char c = false /\ cyr_class c = false.

(** The tokens whose value is a key of the lexicon, and their number. *)
Definition in_lexicon (self : SentimentAnalyzer) (t : Token) : Prop :=
  is_Some (_lexicon self !! value t).

Definition lexicon_hits (self : SentimentAnalyzer) (tokens : list Token)
  : nat :=
  length (filter (in_lexicon self) tokens).

(** A value one of the context rules reacts to. *)
Definition context_word (self : SentimentAnalyzer) (v : str) : Prop :=
  v ∈ _negation_words self \/ is_Some (_booster_words self !! v) \/
  v ∈ _intensifiers \/ is_Some (modifiers !! v) \/ v ∈ contrast_words.

(** A word token that triggers no rule: not a context word, no "!" or
    "?" in its surface form, and not subject to the caps rule. *)
Definition plain_token {rt : Runtime} (self : SentimentAnalyzer) (t : Token)
  : Prop :=
  is_emoji t = false /\ ~ context_word self (value t) /\
  contains excl (original_value t) = false /\
  contains quest (original_value t) = false /\
  isupper (value t) && (1 <? length (value t))%nat = false.

(** The lexicon scores of the tokens, added up from 0.0 in the order of
    the tokens. *)
Definition plain_sum (self : SentimentAnalyzer) (tokens : list Token)
  : float :=
  fold_left (fun acc t => match _lexicon self !! value t with
                          | Some s => (acc + s)%float
                          | None => acc
                          end) tokens 0%float.

(** Two token lists that agree from five positions before [i] to one
    position after it. *)
Definition same_context (tokens tokens' : list Token) (i : nat) : Prop :=
  forall j, (i - 5 <= j <= i + 1)%nat -> tokens !! j = tokens' !! j.

(** The entry a line of the lexicon file stands for, if any: the
    stripped text before the first tabulator and the score read from
    the text between the first and the second. *)
Definition line_entry {rt : Runtime} (prepare : str -> str) (line : str)
  : option (str * float) :=
  match split tab (strip line) with
  | word :: field :: _ =>
    if nonempty (strip line)
    then score ← float_of_str (prepare field); Some (strip word, score)
    else None
  | _ => None
  end.

(** What the first and the second attempt of the loader do to the
    score field. *)
Definition first_prepare (field : str) : str := strip (replace comma dot field).
Definition second_prepare (field : str) : str := field.

(** A key as the loader stores it: not empty, without tabulator, and
    without white space at either end. *)
Definition stored_key (k : str) : Prop :=
  k <> [] /\ contains tab k = false /\
  (forall c, head k = Some c -> whitespace c = false) /\
  (forall c, last k = Some c -> whitespace c = false).

(** A text without white space. *)
Definition solid (s : str) : Prop := Forall (fun c => whitespace c = false) s.

(** A line the loader passes over: blank, without tabulator, or with a
    score field that [float] refuses in both attempts. *)
Definition passed_over {rt : Runtime} (line : str) : Prop :=
  strip line = [] \/ contains tab (strip line) = false \/
  exists word field rest,
    split tab (strip line) = word :: field :: rest /\
    float_of_str (first_prepare field) = None /\
    float_of_str (second_prepare field) = None.

(** A line a reading of the whole file leaves out: blank, without
    tabulator, or with a score field that [float] refuses after its
    commas were turned into points. *)
Definition skipped {rt : Runtime} (line : str) : Prop :=
  strip line = [] \/ contains tab (strip line) = false \/
  exists word field rest,
    split tab (strip line) = word :: field :: rest /\
    float_of_str (first_prepare field) = None.

(** A load that fails with nothing stored: there is no file, the file
    cannot be opened, or its reading fails at once or after lines that
    both attempts pass over. *)
Definition fails_with_nothing_stored {rt : Runtime} (file : lexicon_file)
  : Prop :=
  match file with
  | Missing | Unreadable => True
  | Lines lines fault => fault = true /\ Forall passed_over lines
  end.

(** The Russian letters, without white space and hyphen. *)
Definition russian_letter (c : N) : bool :=
  between 0x410 0x44F c || (c =? 0x401)%N || (c =? 0x451)%N.

(** The byte of a character in a code page, if it has one. *)
Definition encode_char (e : MyStemProcessor.encoding) (c : N) : option N :=
  if (c <? 128)%N then Some c
  else
    find (fun b => bool_decide (MyStemProcessor.decode_byte e b = Some c))
      (map N.of_nat (seq 128 128)).

(** [text.encode(e)], its bytes written as the characters ISO-8859-1
    gives them. *)
Definition encode (e : MyStemProcessor.encoding) (text : str) : option str :=
  mapM (encode_char e) text.

(** The tags [extract_part_of_speech] can return. *)
Definition part_of_speech_tags : list str :=
  [ u "NOUN"; u "ADJ"; u "VERB"; u "ADV"; u "PREP"; u "CONJ"; u "PART";
    u "PRON"; u "NUM"; u "UNKN" ].

(** The bytes above ASCII. *)
Definition high_bytes : list N := map N.of_nat (seq 128 128).

(** What a byte of a letter in windows-1251 looks like: it is no
    character of the class of valid Russian text. *)
Definition letter_byte_1251 (b : N) : bool :=
  match MyStemProcessor.decode_byte MyStemProcessor.windows_1251 b with
  | Some c => if russian_letter c
              then negb (MyStemProcessor.russian_class b) else true
  | None => true
  end.

(** What a byte of a letter other than "ё" in KOI8-R looks like: no
    character of the class, and in windows-1251 a different letter. *)
Definition letter_byte_koi8 (b : N) : bool :=
  match MyStemProcessor.decode_byte MyStemProcessor.koi8_r b with
  | Some c =>
    if between 0x410 0x44F c then
      negb (MyStemProcessor.russian_class b) &&
      match MyStemProcessor.decode_byte MyStemProcessor.windows_1251 b with
      | Some c' => russian_letter c' && negb (c' =? c)%N
      | None => false
      end
    else true
  | None => true
  end.

(** A text with something in it and no white space at either end. *)
Definition trimmed (s : str) : Prop :=
  s <> [] /\
  (forall c, head s = Some c -> whitespace c = false) /\
  (forall c, last s = Some c -> whitespace c = false).

(** What reading a file gives when there is nothing to analyse in it
    under an encoding: it does not decode, or every line is blank. *)
Definition nothing_read (o : read_outcome) : Prop :=
  o = DecodeError \/
  exists lines, o = Content lines /\ Forall (fun line => strip line = []) lines.

(** The encodings [_get_text_from_file] tries, in its order. *)
Definition encodings : list file_encoding :=
  [enc_utf_8; enc_cp1251; enc_windows_1251; enc_koi8_r].

(** The output of [n] rounds at the end of the input. *)
Definition at_end_of_input (n : nat) : list Program.message :=
  concat (repeat [Program.Menu; Program.ErrorOccurred Program.EOFError] n).

(** A disk with two files: one of two lines of text around a blank
    line, stored in windows-1251, and an empty one. *)
Module Disk.

Definition notes : str := u "notes.txt".
Definition empty : str := u "empty.txt".

#[export] Instance disk : FileSystem := {|
  path_exists p := bool_decide (p = notes) || bool_decide (p = empty);
  readlines p e :=
    if bool_decide (p = notes) then
      match e with
      | enc_utf_8 => DecodeError
      | _ => Content [u " хорошо " ++ [10%N]; [10%N]; u "день" ++ [10%N]]
      end
    else if bool_decide (p = empty) then Content []
    else OtherError
|}.

End Disk.

(** * Properties *)

(** ** Order of floats *)

Section FloatOrder.
#[local] Open Scope float_scope.

Lemma SFcompare_swap (x y : spec_float) :
  SFcompare y x = CompOpp <$> SFcompare x y.
Proof.
  destruct x as [[]|[]| |[] m1 e1], y as [[]|[]| |[] m2 e2];
    try reflexivity; simpl;
    pose proof (Pos.compare_cont_antisym m1 m2 Eq) as Hm; simpl in Hm;
    rewrite (Z.compare_antisym e1 e2), <- Hm;
    destruct (e1 ?= e2)%Z; simpl; rewrite ?CompOpp_involutive; reflexivity.
Qed.

Lemma ltb_leb (x y : float) : (x <? y) = true -> (x <=? y) = true.
Proof.
  rewrite FloatAxioms.ltb_spec, FloatAxioms.leb_spec.
  unfold SFltb, SFleb. destruct (SFcompare _ _) as [[]|]; congruence.
Qed.

Lemma ltb_not_leb (x y : float) : (x <? y) = true -> (y <=? x) = false.
Proof.
  rewrite FloatAxioms.ltb_spec, FloatAxioms.leb_spec.
  unfold SFltb, SFleb. rewrite (SFcompare_swap (Prim2SF x)).
  destruct (SFcompare _ _) as [[]|]; simpl; congruence.
Qed.

(** Nothing is both at most a negative and at least a positive number. *)
Lemma leb_neg_not_pos (x : float) :
  (x <=? -0.05) = true -> (0.05 <=? x) = false.
Proof.
  rewrite !FloatAxioms.leb_spec.
  change (Prim2SF (-0.05)) with (S754_finite true 7205759403792794 (-57)).
  change (Prim2SF 0.05) with (S754_finite false 7205759403792794 (-57)).
  destruct (Prim2SF x) as [[]|[]| |[] m e]; unfold SFleb, SFcompare;
    try reflexivity; try discriminate.
Qed.

End FloatOrder.

(** ** The score normalizer *)

Section Normalizer.
#[local] Open Scope float_scope.

Lemma clamp_in_range (x : float) :
  (-4 <=? Py.max (-4) (Py.min 4 x)) = true /\
  (Py.max (-4) (Py.min 4 x) <=? 4) = true.
Proof.
  unfold Py.max, Py.min.
  destruct (x <? 4) eqn:Hhi.
  - destruct (-4 <? x) eqn:Hlo.
    + split; apply ltb_leb; assumption.
    + split; reflexivity.
  - split; reflexivity.
Qed.

Lemma normalize_ok_inv (raw : float) (wc : Z) (v : float) :
  _normalize_vader_score raw wc = Ok v ->
  v = 0 \/ exists x, v = Py.max (-4) (Py.min 4 x).
Proof.
  unfold _normalize_vader_score.
  destruct (wc =? 0)%Z; [intros [= <-]; left; reflexivity|].
  destruct (math_sqrt (raw + 15)) as [root|]; simpl; [|discriminate].
  destruct (Py.div raw root) as [n|]; simpl; [|discriminate].
  destruct (0 <? wc)%Z.
  - destruct (math_sqrt _) as [damp|]; simpl; [|discriminate].
    destruct (Py.div n damp) as [n'|]; simpl; [|discriminate].
    intros [= <-]. right. eexists. reflexivity.
  - simpl. intros [= <-]. right. eexists. reflexivity.
Qed.

Lemma normalize_in_range (raw : float) (wc : Z) (v : float) :
  _normalize_vader_score raw wc = Ok v ->
  (-4 <=? v) = true /\ (v <=? 4) = true.
Proof.
  intros Hv. destruct (normalize_ok_inv _ _ _ Hv) as [-> | [x ->]].
  - split; reflexivity.
  - apply clamp_in_range.
Qed.

(** Below zero [math.sqrt] has no value. *)
Lemma sqrt_of_negative_raises (x : float) :
  (x <? 0) = true -> math_sqrt x = Raise ValueError.
Proof.
  intros Hx. unfold math_sqrt, is_nan.
  rewrite !FloatAxioms.eqb_spec, FloatAxioms.sqrt_spec.
  rewrite FloatAxioms.ltb_spec in Hx.
  change (Prim2SF 0) with (S754_zero false) in Hx.
  destruct (Prim2SF x) as [[]|[]| |[] m e]; try discriminate Hx.
  - reflexivity.
  - unfold SF64sqrt, SFsqrt, SFeqb, SFcompare.
    rewrite Z.compare_refl, Pos.compare_cont_refl. reflexivity.
Qed.

(** With a matched word, every raw score whose sum with 15 is negative
    makes the normalizer raise. *)
Lemma normalizer_raises_below_minus_15 (raw : float) (wc : Z) :
  wc <> 0%Z -> (raw + 15 <? 0) = true ->
  _normalize_vader_score raw wc = Raise ValueError.
Proof.
  intros Hwc Hx. unfold _normalize_vader_score.
  destruct (Z.eqb_spec wc 0); [contradiction|].
  rewrite (sqrt_of_negative_raises _ Hx). reflexivity.
Qed.

End Normalizer.

(** ** What [analyze] returns *)

Section Analyze.
Context {rt : Runtime}.
Variable self : SentimentAnalyzer.
Variable normalize : list Token -> list Token.

Lemma analyze_ok_inv (text : str) (r : SentimentResult) :
  analyze self normalize text = Ok r ->
  let raw := _apply_vader_rules_enhanced self (all_tokens normalize text) in
  _normalize_vader_score raw.1 raw.2 = Ok (score r) /\
  sentiment r = _get_sentiment_label (score r) /\
  word_count r = raw.2.
Proof.
  unfold analyze.
  destruct (_apply_vader_rules_enhanced _ _) as [raw wc]; simpl.
  destruct (_normalize_vader_score raw wc) as [v|]; simpl; [|discriminate].
  intros [= <-]. simpl. auto.
Qed.

End Analyze.

(** C1.  Whenever [analyze] returns a result, its score lies between
    -4.0 and 4.0 (both included); this is so because the normalizer
    returns either 0.0 or a value clamped to that interval. *)
Theorem score_in_range {rt : Runtime} :
  (forall (raw : float) (wc : Z) (v : float),
     _normalize_vader_score raw wc = Ok v ->
     (-4 <=? v)%float = true /\ (v <=? 4)%float = true) /\
  (forall self normalize (text : str) (r : SentimentResult),
     analyze self normalize text = Ok r ->
     (-4 <=? score r)%float = true /\ (score r <=? 4)%float = true).
Proof.
  split.
  - apply normalize_in_range.
  - intros self normalize text r Hr.
    destruct (analyze_ok_inv _ _ _ _ Hr) as (Hn & _ & _).
    exact (normalize_in_range _ _ _ Hn).
Qed.

Lemma score_in_range_witness :
  exists r,
    analyze (rt := Basic.runtime) Sample.analyzer unnormalized
      (u "очень ужасно!") = Ok r /\
    (-4 <=? score r)%float = true /\ (score r <=? 4)%float = true.
Proof.
  eexists. split.
  - vm_compute. reflexivity.
  - apply (proj2 (score_in_range (rt := Basic.runtime)) Sample.analyzer
             unnormalized (u "очень ужасно!")).
    vm_compute. reflexivity.
Defined.

(** C8.  The label depends on the score alone: a score of 0.05 or more
    is Positive, a score of -0.05 or less is Negative, and a score
    strictly between the two is Neutral. *)
Theorem label_thresholds (x : float) :
  ((0.05 <=? x)%float = true -> _get_sentiment_label x = Positive) /\
  ((x <=? -0.05)%float = true -> _get_sentiment_label x = Negative) /\
  ((-0.05 <? x)%float = true -> (x <? 0.05)%float = true ->
   _get_sentiment_label x = Neutral).
Proof.
  unfold _get_sentiment_label. repeat split.
  - intros ->. reflexivity.
  - intros Hx. rewrite (leb_neg_not_pos _ Hx), Hx. reflexivity.
  - intros Hlo Hhi.
    rewrite (ltb_not_leb _ _ Hhi), (ltb_not_leb _ _ Hlo). reflexivity.
Qed.

Lemma label_thresholds_witness :
  _get_sentiment_label 0.05 = Positive /\
  _get_sentiment_label (-0.05) = Negative /\
  _get_sentiment_label 0.049 = Neutral.
Proof.
  split; [|split].
  - apply (proj1 (label_thresholds 0.05)). reflexivity.
  - apply (proj1 (proj2 (label_thresholds (-0.05)))). reflexivity.
  - apply (proj2 (proj2 (label_thresholds 0.049))); reflexivity.
Defined.

(** C2.  The normalizer does not resolve raw scores below -15: the
    square root of [score + 15] is a domain error there, and a zero
    divisor at exactly -15.  The text of the third part reaches the
    fault through [analyze]: two words of score -4.0, each doubled by
    the booster before it, sum to -16. *)
Theorem normalizer_faults_from_minus_15_down :
  _normalize_vader_score (-16) 1 = Raise ValueError /\
  _normalize_vader_score (-15) 1 = Raise ZeroDivisionError /\
  _apply_vader_rules_enhanced (rt := Basic.runtime) Sample.analyzer
    (all_tokens (rt := Basic.runtime) unnormalized
       (u "очень ужасно, очень ужасно")) = ((-16)%float, 2) /\
  analyze (rt := Basic.runtime) Sample.analyzer unnormalized
    (u "очень ужасно, очень ужасно") = Raise ValueError.
Proof. repeat split; vm_compute; reflexivity. Qed.

(** ** The negation rule *)

Section Negation.
Variable self : SentimentAnalyzer.

Lemma elem_of_by_decide (v : str) (s : gset str) :
  bool_decide (v ∈ s) = true -> v ∈ s.
Proof. apply bool_decide_eq_true_1. Qed.

Lemma word_in_Some (s : gset str) (t : Token) :
  word_in s t = Some tt <-> is_emoji t = false /\ value t ∈ s.
Proof.
  unfold word_in. destruct (is_emoji t); simpl.
  - split; [discriminate | intros [? _]; discriminate].
  - case_bool_decide; split; try tauto; discriminate.
Qed.

Lemma word_in_None (s : gset str) (t : Token) :
  ~ (is_emoji t = false /\ value t ∈ s) -> word_in s t = None.
Proof.
  intros Hn. destruct (word_in s t) as [[]|] eqn:E; [|reflexivity].
  apply word_in_Some in E. contradiction.
Qed.

Lemma first_hit_seq {A} (f : Token -> option A) (tokens : list Token)
  (n lo j : nat) (a : A) :
  (lo <= j < lo + n)%nat ->
  tokens !! j ≫= f = Some a ->
  (forall k, (lo <= k < j)%nat -> tokens !! k ≫= f = None) ->
  first_hit f tokens (seq lo n) = Some (j, a).
Proof.
  revert lo. induction n as [|n IH]; intros lo Hj Hhit Hbefore; [lia|].
  simpl. destruct (decide (lo = j)) as [->|Hne].
  - rewrite Hhit. reflexivity.
  - rewrite (Hbefore lo) by lia. apply IH; [lia | assumption |].
    intros k Hk. apply Hbefore. lia.
Qed.

Lemma negation_first_hit (tokens : list Token) (i j : nat) (t : Token) :
  (i - 3 <= j < i)%nat ->
  tokens !! j = Some t -> negator self t ->
  (forall k t', (i - 3 <= k < j)%nat -> tokens !! k = Some t' ->
                ~ negator self t') ->
  first_hit (word_in (_negation_words self)) tokens (window 3 i)
  = Some (j, tt).
Proof.
  intros Hj Ht Hneg Hbefore. unfold window.
  apply first_hit_seq; [lia | |].
  - rewrite Ht. simpl. apply word_in_Some. exact Hneg.
  - intros k Hk. destruct (tokens !! k) as [t'|] eqn:Ek; [|reflexivity].
    simpl. apply word_in_None. exact (Hbefore k t' Hk Ek).
Qed.

End Negation.

(** C3, as the code has it.  The loop of the negation rule runs forward
    from [max(0, i-3)] and returns at its first hit, so the negator that
    counts is the first one of the window, the farthest from [i]; with
    [d = i - j] its distance, the score becomes
    [score * -0.74 * (1.0 - (d-1)*0.1)]. *)
Theorem negation_uses_first_negator_of_window
  (self : SentimentAnalyzer) (tokens : list Token) (i j : nat) (t : Token)
  (score : float) :
  (i - 3 <= j < i)%nat ->
  tokens !! j = Some t -> negator self t ->
  (forall k t', (i - 3 <= k < j)%nat -> tokens !! k = Some t' ->
                ~ negator self t') ->
  _apply_negation_rules_enhanced self tokens i score
  = (score * -0.74
     * (1.0 - float_of_int (Z.of_nat i - Z.of_nat j - 1) * 0.1))%float.
Proof.
  intros Hj Ht Hneg Hbefore. unfold _apply_negation_rules_enhanced.
  rewrite (negation_first_hit self tokens i j t Hj Ht Hneg Hbefore).
  reflexivity.
Qed.

Lemma negation_uses_first_negator_of_window_witness :
  _apply_negation_rules_enhanced Sample.analyzer
    [Sample.word "не"; Sample.word "ни"; Sample.word "хорошо"] 2 2
  = (2 * -0.74 * (1.0 - float_of_int (2 - 0 - 1) * 0.1))%float.
Proof.
  apply (negation_uses_first_negator_of_window Sample.analyzer
           [Sample.word "не"; Sample.word "ни"; Sample.word "хорошо"]
           2 0 (Sample.word "не") 2).
  - lia.
  - reflexivity.
  - split; [reflexivity|]. apply elem_of_by_decide. vm_compute. reflexivity.
  - intros k t' Hk. lia.
Defined.

(** C3, as the spec words it, fails.  In "не ни хорошо" both words
    before the scored one are negators; the nearest is at distance 1,
    but the rule takes the one at distance 2 and yields -1.332 where the
    nearest one would give -1.48. *)
Lemma negation_nearest_counterexample :
  let tokens := [Sample.word "не"; Sample.word "ни"; Sample.word "хорошо"] in
  negator Sample.analyzer (Sample.word "не") /\
  negator Sample.analyzer (Sample.word "ни") /\
  _apply_negation_rules_enhanced Sample.analyzer tokens 2 2
  = (2 * -0.74 * (1.0 - float_of_int (2 - 0 - 1) * 0.1))%float /\
  _apply_negation_rules_enhanced Sample.analyzer tokens 2 2
  <> (2 * -0.74 * (1.0 - float_of_int (2 - 1 - 1) * 0.1))%float.
Proof.
  cbv zeta. split; [|split; [|split]].
  - split; [reflexivity|]. apply elem_of_by_decide. vm_compute. reflexivity.
  - split; [reflexivity|]. apply elem_of_by_decide. vm_compute. reflexivity.
  - vm_compute. reflexivity.
  - intros E. apply (f_equal Prim2SF) in E. vm_compute in E. discriminate.
Qed.

(** ** No matched word, and no lexicon *)

Section ZeroCount.
Context {rt : Runtime}.
Variable self : SentimentAnalyzer.
Variable normalize : list Token -> list Token.

Lemma analyze_zero_count (text : str) :
  (_apply_vader_rules_enhanced self (all_tokens normalize text)).2 = 0 ->
  analyze self normalize text = Ok neutral_result.
Proof.
  unfold analyze.
  destruct (_apply_vader_rules_enhanced _ _) as [raw wc]; simpl.
  intros ->. reflexivity.
Qed.

Lemma vader_loop_empty_lexicon (tokens rest : list Token) (i : nat)
  (s : float) (wc : Z) :
  _lexicon self = ∅ -> vader_loop self tokens i rest s wc = (s, wc).
Proof.
  intros Hempty. revert i. induction rest as [|t rest IH]; intros i.
  - reflexivity.
  - simpl. unfold word_score. rewrite Hempty, lookup_empty. apply IH.
Qed.

Lemma analyze_empty_lexicon (text : str) :
  _lexicon self = ∅ -> analyze self normalize text = Ok neutral_result.
Proof.
  intros Hempty. apply analyze_zero_count.
  unfold _apply_vader_rules_enhanced.
  rewrite vader_loop_empty_lexicon by assumption. reflexivity.
Qed.

End ZeroCount.

(** C6, as the code has it.  A text without a matched token is scored
    0.0 exactly and labelled Neutral: [analyze] returns, and a result
    whose [word_count] is 0 has score 0.0. *)
Theorem zero_count_gives_zero_score {rt : Runtime}
  (self : SentimentAnalyzer) (normalize : list Token -> list Token)
  (text : str) :
  ((_apply_vader_rules_enhanced self (all_tokens normalize text)).2 = 0 ->
   analyze self normalize text = Ok neutral_result) /\
  (forall r, analyze self normalize text = Ok r -> word_count r = 0 ->
             score r = 0%float /\ sentiment r = Neutral).
Proof.
  split.
  - apply analyze_zero_count.
  - intros r Hr Hwc.
    destruct (analyze_ok_inv _ _ _ _ Hr) as (_ & _ & Hc).
    rewrite Hwc in Hc. symmetry in Hc.
    rewrite (analyze_zero_count _ _ _ Hc) in Hr.
    injection Hr as <-. split; reflexivity.
Qed.

Lemma zero_count_gives_zero_score_witness :
  analyze (rt := Basic.runtime) Sample.analyzer unnormalized
    (u "это было давно :-(") = Ok neutral_result.
Proof.
  apply (proj1 (zero_count_gives_zero_score (rt := Basic.runtime)
                  Sample.analyzer unnormalized (u "это было давно :-("))).
  vm_compute. reflexivity.
Defined.

(** C6, the converse, fails.  In "хорошо плохо" two tokens match the
    lexicon, with scores 2.0 and -2.0; their sum and the normalized
    score are 0.0 exactly. *)
Lemma zero_score_with_matched_words :
  analyze (rt := Basic.runtime) Sample.analyzer unnormalized
    (u "хорошо плохо")
  = Ok {| score := 0; sentiment := Neutral; word_count := 2 |}.
Proof. vm_compute. reflexivity. Qed.

(** ** Lines of the lexicon file *)

Section LexiconLines.
Context {rt : Runtime}.

Lemma contains_false (c : N) (s : str) :
  contains c s = false <-> Forall (fun x => x <> c) s.
Proof.
  unfold contains. induction s as [|x s IH]; simpl.
  - split; [constructor | reflexivity].
  - rewrite orb_false_iff, IH, N.eqb_neq. split.
    + intros [Hx Hs]. constructor; [congruence | exact Hs].
    + intros Hs. inversion Hs; subst. split; [congruence | assumption].
Qed.

Lemma split_whole (sep : N) (s : str) :
  contains sep s = false -> split sep s = [s].
Proof.
  intros Hs. apply contains_false in Hs.
  induction Hs as [|c r Hc _ IH]; [reflexivity|]. simpl.
  destruct (N.eqb_spec c sep); [contradiction|]. rewrite IH. reflexivity.
Qed.

Lemma read_line_entry (prepare : str -> str) (lexicon : gmap str float)
  (line : str) :
  read_line prepare lexicon line
  = match line_entry prepare line with
    | Some (k, v) => <[k := v]> lexicon
    | None => lexicon
    end.
Proof.
  unfold read_line, line_entry.
  destruct (nonempty (strip line)); destruct (split tab (strip line))
    as [|word [|field rest]]; try reflexivity.
  destruct (float_of_str (prepare field)); reflexivity.
Qed.

Lemma passed_over_no_entry (line : str) :
  passed_over line ->
  line_entry first_prepare line = None /\
  line_entry second_prepare line = None.
Proof.
  unfold line_entry. intros [Hb | [Ht | (w & f & rest & -> & H1 & H2)]].
  - rewrite Hb. split; reflexivity.
  - rewrite (split_whole _ _ Ht). split; reflexivity.
  - rewrite H1, H2. destruct (nonempty (strip line)); split; reflexivity.
Qed.

Lemma skipped_no_entry (line : str) :
  skipped line -> line_entry first_prepare line = None.
Proof.
  unfold line_entry. intros [Hb | [Ht | (w & f & rest & -> & H1)]].
  - rewrite Hb. reflexivity.
  - rewrite (split_whole _ _ Ht). reflexivity.
  - rewrite H1. destruct (nonempty (strip line)); reflexivity.
Qed.

Lemma read_lines_nothing (prepare : str -> str) (lines : list str)
  (lexicon : gmap str float) :
  Forall (fun line => line_entry prepare line = None) lines ->
  fold_left (read_line prepare) lines lexicon = lexicon.
Proof.
  induction 1 as [|line lines Hline _ IH]; [reflexivity|]. simpl.
  rewrite read_line_entry, Hline. exact IH.
Qed.

Lemma nothing_stored (file : lexicon_file) (lexicon : gmap str float) :
  fails_with_nothing_stored file ->
  _load_tonal_lexicon file lexicon = lexicon.
Proof.
  destruct file as [| |lines fault]; [reflexivity | reflexivity |].
  intros [-> Hlines]. unfold _load_tonal_lexicon, attempt.
  assert (Forall (fun line => line_entry first_prepare line = None) lines)
    as H1 by (eapply Forall_impl; [exact Hlines|];
              intros line Hl; apply (passed_over_no_entry line Hl)).
  assert (Forall (fun line => line_entry second_prepare line = None) lines)
    as H2 by (eapply Forall_impl; [exact Hlines|];
              intros line Hl; apply (passed_over_no_entry line Hl)).
  pose proof (read_lines_nothing first_prepare lines lexicon H1) as E1.
  unfold first_prepare in E1. rewrite E1. simpl.
  exact (read_lines_nothing second_prepare lines lexicon H2).
Qed.

End LexiconLines.

(** C7, as the code has it.  When the load fails with nothing stored,
    that is, without a lexicon file, with one that cannot be opened, or
    with one whose reading fails at once or after lines that hold no
    entry, the analyzer is built with an empty lexicon, and every text
    is then analysed to no matched word, score 0.0 and the Neutral
    label. *)
Theorem missing_lexicon_gives_neutral {rt : Runtime}
  (file : lexicon_file) (normalize : list Token -> list Token) (text : str) :
  fails_with_nothing_stored file ->
  _lexicon (new file) = ∅ /\
  analyze (new file) normalize text = Ok neutral_result.
Proof.
  intros Hfile.
  assert (_lexicon (new file) = ∅) as Hempty
    by (exact (nothing_stored file ∅ Hfile)).
  split; [exact Hempty|]. apply analyze_empty_lexicon. exact Hempty.
Qed.

Lemma missing_lexicon_gives_neutral_witness :
  let file := Lines [u "# words and scores" ++ [10%N]; [10%N]] true in
  _lexicon (new (rt := Basic.runtime) file) = ∅ /\
  analyze (rt := Basic.runtime) (new (rt := Basic.runtime) file)
    unnormalized (u "хорошо!") = Ok neutral_result.
Proof.
  apply (missing_lexicon_gives_neutral (rt := Basic.runtime)
           (Lines [u "# words and scores" ++ [10%N]; [10%N]] true)
           unnormalized (u "хорошо!")).
  split; [reflexivity|].
  apply List.Forall_cons; [right; left; vm_compute; reflexivity|].
  apply List.Forall_cons; [left; vm_compute; reflexivity|].
  apply List.Forall_nil.
Defined.

(** C7, for a load that fails part-way, fails.  The file yields one
    line and then a read error: both attempts store the entry of that
    line before the error, the lexicon is not empty, and "хорошо" is
    analysed to one matched word and the Positive label. *)
Lemma partial_load_counterexample :
  let file := Lines [Sample.entry "хорошо" "2.0"] true in
  let self := new (rt := Basic.runtime) file in
  _lexicon self !! u "хорошо" = Some 2%float /\
  exists r,
    analyze (rt := Basic.runtime) self unnormalized (u "хорошо") = Ok r /\
    word_count r = 1 /\ sentiment r = Positive.
Proof.
  split; [vm_compute; reflexivity|].
  eexists. split; [vm_compute; reflexivity|]. split; reflexivity.
Qed.

(** ** The token list the rules receive *)

Section Order.
Context {rt : Runtime}.
Variable normalize : list Token -> list Token.
Hypothesis normalize_ok : normalizer_contract normalize.

Lemma filter_keeps_all {A} (P : A -> Prop) `{!forall x, Decision (P x)}
  (l : list A) : Forall P l -> filter P l = l.
Proof.
  induction 1 as [|x l Hx _ IH]; [reflexivity|].
  rewrite filter_cons_True by assumption. f_equal. exact IH.
Qed.

Lemma filter_keeps_none {A} (P : A -> Prop) `{!forall x, Decision (P x)}
  (l : list A) : Forall (fun x => ~ P x) l -> filter P l = [].
Proof.
  induction 1 as [|x l Hx _ IH]; [reflexivity|].
  rewrite filter_cons_False by assumption. exact IH.
Qed.

Lemma filtered_satisfy {A} (P : A -> Prop) `{!forall x, Decision (P x)}
  (l : list A) : Forall P (filter P l).
Proof.
  apply Forall_forall. intros x Hx. apply list_elem_of_filter in Hx. tauto.
Qed.

Lemma Forall2_right {A B} (P : B -> Prop) (Q : A -> B -> Prop)
  (l : list A) (k : list B) :
  Forall2 (fun a b => P b /\ Q a b) l k -> Forall P k.
Proof. induction 1 as [|a b l k [Hb _] _ IH]; constructor; auto. Qed.

Lemma normalized_are_words (ws : list Token) :
  Forall (fun t => is_emoji t = false) ws ->
  Forall (fun t => is_emoji t = false) (normalize ws).
Proof. intros Hws. exact (Forall2_right _ _ _ _ (normalize_ok ws Hws)). Qed.

Lemma words_of_text_are_words (text : str) :
  Forall (fun t => is_emoji t = false)
    (normalize (filter (fun token => negb (is_emoji token))
                  (tokenize_with_positions text))).
Proof.
  apply normalized_are_words.
  eapply Forall_impl; [apply filtered_satisfy|].
  intros t Ht. simpl in Ht. destruct (is_emoji t); [contradiction|reflexivity].
Qed.

End Order.

(** C4, as the code has it.  The rules receive the normalized word
    tokens, in their order, followed by the emoji tokens, in their
    order: the emoji sub-sequence is that of the tokenizer, the word
    sub-sequence is the normalizer's output, and every word token
    stands before every emoji token. *)
Theorem rules_receive_words_then_emoji {rt : Runtime}
  (normalize : list Token -> list Token) (text : str) :
  normalizer_contract normalize ->
  let tokens := tokenize_with_positions text in
  let received := all_tokens normalize text in
  filter is_emoji received = filter is_emoji tokens /\
  filter (fun t => negb (is_emoji t)) received
  = normalize (filter (fun t => negb (is_emoji t)) tokens) /\
  forall (i j : nat) (a b : Token),
    received !! i = Some a -> received !! j = Some b ->
    is_emoji a = false -> is_emoji b = true -> (i < j)%nat.
Proof.
  intros Hn tokens received.
  pose proof (words_of_text_are_words normalize Hn text) as Hw.
  fold tokens in Hw. unfold received, all_tokens. fold tokens.
  set (ws := normalize _) in *. set (es := filter is_emoji tokens).
  assert (Forall (fun t => is_emoji t) es) as He
    by apply filtered_satisfy.
  split; [|split].
  - rewrite filter_app, (filter_keeps_none _ ws), (filter_keeps_all _ es);
      [reflexivity | exact He |].
    eapply Forall_impl; [exact Hw|]. intros t Ht Hf.
    rewrite Ht in Hf. exact Hf.
  - rewrite filter_app, (filter_keeps_all _ ws), (filter_keeps_none _ es).
    + apply app_nil_r.
    + eapply Forall_impl; [exact He|]. intros t Ht. cbv beta in Ht.
      destruct (is_emoji t); [intros Hf; exact Hf | exfalso; exact Ht].
    + eapply Forall_impl; [exact Hw|]. intros t ->. exact I.
  - intros i j a b Ha Hb Hwa Heb.
    destruct (decide (i < length ws)%nat) as [Hi|Hi].
    + destruct (decide (j < length ws)%nat) as [Hj|Hj]; [|lia].
      rewrite lookup_app_l in Hb by assumption.
      rewrite Forall_forall in Hw.
      rewrite (Hw b) in Heb; [discriminate|].
      eapply list_elem_of_lookup_2; eassumption.
    + rewrite lookup_app_r in Ha by lia.
      rewrite Forall_forall in He.
      assert (is_emoji a) as Hea
        by (apply He; eapply list_elem_of_lookup_2; eassumption).
      rewrite Hwa in Hea. exfalso. exact Hea.
Qed.

Lemma unnormalized_contract : normalizer_contract unnormalized.
Proof.
  intros ws Hws. unfold unnormalized.
  induction Hws; constructor; auto.
Qed.

Lemma rules_receive_words_then_emoji_witness :
  let tokens := tokenize_with_positions (rt := Basic.runtime) (u ":) хорошо") in
  let received :=
    all_tokens (rt := Basic.runtime) unnormalized (u ":) хорошо") in
  filter is_emoji received = filter is_emoji tokens /\
  filter (fun t => negb (is_emoji t)) received
  = unnormalized (filter (fun t => negb (is_emoji t)) tokens) /\
  forall (i j : nat) (a b : Token),
    received !! i = Some a -> received !! j = Some b ->
    is_emoji a = false -> is_emoji b = true -> (i < j)%nat.
Proof.
  apply (rules_receive_words_then_emoji (rt := Basic.runtime) unnormalized
           (u ":) хорошо")).
  exact unnormalized_contract.
Defined.

(** C4, as the spec words it, fails.  In ":) хорошо" the emoticon comes
    first in the tokenizer's output and last in what the rules
    receive. *)
Lemma emoji_moves_behind_words :
  let smile := {| value := u ":)"; original_value := u ":)";
                  is_emoji := true |} in
  tokenize_with_positions (rt := Basic.runtime) (u ":) хорошо")
  = [smile; Sample.word "хорошо"] /\
  all_tokens (rt := Basic.runtime) unnormalized (u ":) хорошо")
  = [Sample.word "хорошо"; smile].
Proof. split; vm_compute; reflexivity. Qed.

(** ** The characters of a token's value *)

Section TokenizerValues.
Context {rt : Runtime}.

Lemma take_span_Forall (p : N -> bool) (l : str) (k : nat) :
  (k <= length (span p l).1)%nat ->
  Forall (fun c => p c = true) (take k l).
Proof.
  revert k. induction l as [|c r IH]; intros k Hk.
  - destruct k; constructor.
  - simpl in Hk. destruct (p c) eqn:E.
    + destruct (span p r) as [a b]. simpl in *.
      destruct k as [|k]; simpl; constructor; [exact E|].
      apply IH. lia.
    + simpl in Hk. replace k with 0%nat by lia. constructor.
Qed.

Lemma span_fst_Forall (p : N -> bool) (l : str) :
  Forall (fun c => p c = true) (span p l).1.
Proof.
  induction l as [|c r IH]; simpl; [constructor|].
  destruct (p c) eqn:E; [|constructor].
  destruct (span p r) as [a b]. simpl in *. constructor; assumption.
Qed.

Lemma span_snd_Forall (P : N -> Prop) (p : N -> bool) (l : str) :
  Forall P l -> Forall P (span p l).2.
Proof.
  induction 1 as [|c r Hc Hr IH]; simpl; [constructor|].
  destruct (p c).
  - destruct (span p r) as [a b]. exact IH.
  - constructor; assumption.
Qed.

Lemma strip_punct_Forall (P : N -> Prop) (s : str) :
  Forall P s -> Forall P (strip_punct s).
Proof.
  intros Hs. unfold strip_punct.
  apply Forall_rev, span_snd_Forall, Forall_rev, Hs.
Qed.

Lemma backtrack_le (n : nat) (l : str) (k : nat) :
  backtrack n l = Some k -> (k <= n)%nat.
Proof.
  induction n as [|n IH]; simpl; [discriminate|].
  destruct (boundary _ _); [intros [= <-]; lia|].
  intros Hk. specialize (IH Hk). lia.
Qed.

Lemma mouths_chars (pre r m : str) :
  Forall (fun c => emoji_text_char c = true) pre ->
  mouths pre r = Some m ->
  Forall (fun c => emoji_text_char c = true) m.
Proof.
  intros Hpre. unfold mouths.
  pose proof (span_fst_Forall mouth r) as Hm.
  destruct (span mouth r) as [[|c a] b]; [discriminate|].
  intros [= <-]. apply Forall_app. split; [exact Hpre|].
  eapply Forall_impl; [exact Hm|].
  intros x Hx. unfold emoji_text_char. rewrite Hx.
  destruct (eyes x), (nose x); reflexivity.
Qed.

Lemma match_emoticon_chars (l m : str) :
  match_emoticon l = Some m ->
  Forall (fun c => emoji_text_char c = true) m.
Proof.
  unfold match_emoticon. destruct l as [|e r]; [discriminate|].
  destruct (eyes e) eqn:Ee; [|discriminate].
  assert (emoji_text_char e = true) as He
    by (unfold emoji_text_char; rewrite Ee; reflexivity).
  destruct r as [|n r']; [discriminate|].
  destruct (nose n) eqn:En.
  - assert (emoji_text_char n = true) as Hn
      by (unfold emoji_text_char; rewrite En; destruct (eyes n); reflexivity).
    destruct (mouths [e; n] r') as [m'|] eqn:E1.
    + intros [= <-]. eapply mouths_chars; [|exact E1].
      repeat constructor; assumption.
    + apply mouths_chars. repeat constructor; assumption.
  - apply mouths_chars. repeat constructor; assumption.
Qed.

Lemma match_word_chars (prev : option N) (l w : str) :
  match_word prev l = Some w ->
  Forall (fun c => word_text_char c = true) w.
Proof.
  unfold match_word. destruct (boundary prev (head l)); [|discriminate].
  destruct (backtrack _ l) as [k|] eqn:Ek; [|discriminate].
  intros [= <-]. apply Forall_app. split.
  - eapply Forall_impl;
      [exact (take_span_Forall cyr_class l k (backtrack_le _ _ _ Ek))|].
    intros c Hc. unfold word_text_char. rewrite Hc. reflexivity.
  - eapply Forall_impl; [apply span_fst_Forall|].
    intros c Hc. unfold word_text_char. simpl in Hc. rewrite Hc.
    destruct (cyr_class c); reflexivity.
Qed.

Lemma comprehensive_chars (prev : option N) (l : str) (m : str * bool) :
  comprehensive prev l = Some m -> match_chars m.
Proof.
  unfold comprehensive, match_chars.
  destruct (match_emoticon l) as [e|] eqn:Ee.
  - intros [= <-]. simpl. exact (match_emoticon_chars _ _ Ee).
  - destruct l as [|c r]; [discriminate|].
    destruct (emoji_char c) eqn:Ec.
    + intros [= <-]. simpl. constructor; [|constructor].
      unfold emoji_text_char. rewrite Ec.
      destruct (eyes c), (nose c), (mouth c); reflexivity.
    + destruct (match_word prev (c :: r)) as [w|] eqn:Ew; [|discriminate].
      intros [= <-]. simpl. exact (match_word_chars _ _ _ Ew).
Qed.

Lemma finditer_chars (l : str) (prev : option N) (skip : nat) :
  Forall match_chars (finditer prev skip l).
Proof.
  revert prev skip. induction l as [|c r IH]; intros prev skip; simpl.
  - constructor.
  - destruct skip as [|k]; [|apply IH].
    destruct (comprehensive prev (c :: r)) as [[m g]|] eqn:E; [|apply IH].
    constructor; [|apply IH]. exact (comprehensive_chars _ _ _ E).
Qed.

Lemma token_of_match_values (m : str * bool) :
  match_chars m -> Forall value_from_match (token_of_match m).
Proof.
  destruct m as [text g]. unfold match_chars, token_of_match. simpl.
  intros Hm. destruct g; simpl.
  - destruct (nonempty text); simpl; [|constructor].
    destruct (nonempty (strip_punct text)); constructor; [|constructor].
    unfold value_from_match. simpl. unfold lower. apply Forall_map.
    apply strip_punct_Forall. eapply Forall_impl; [exact Hm|].
    intros c Hc. exists c. split; [exact Hc|reflexivity].
  - destruct (nonempty text); constructor; [|constructor].
    exact Hm.
Qed.

Lemma tokenizer_values (text : str) :
  Forall value_from_match (tokenize_with_positions text).
Proof.
  unfold tokenize_with_positions. apply Forall_forall. intros t Ht.
  apply list_elem_of_filter in Ht as [_ Ht].
  apply list_elem_of_In, in_concat in Ht as (ts & Hts & Ht).
  apply in_map_iff in Hts as (m & <- & Hm).
  pose proof (finditer_chars text None 0) as Hall.
  rewrite Forall_forall in Hall.
  pose proof (token_of_match_values m (Hall m (proj2 (list_elem_of_In _ _) Hm)))
    as Hts.
  rewrite Forall_forall in Hts. apply Hts, list_elem_of_In, Ht.
Qed.

(** On a word token of the tokenizer the caps rule changes nothing,
    whatever the text, once [isupper] is false on lowered letters and
    punctuation, as it is in CPython. *)
Lemma caps_rule_idle_on_tokenizer_words (text : str) (t : Token)
  (score : float) :
  (forall s, Forall (fun c => exists c0, word_text_char c0 = true /\
                                         c = lower_char c0) s ->
             isupper s = false) ->
  t ∈ tokenize_with_positions text -> is_emoji t = false ->
  _apply_caps_rules (value t) score = score.
Proof.
  intros Hup Ht Hw.
  pose proof (tokenizer_values text) as Hall.
  rewrite Forall_forall in Hall. specialize (Hall t Ht).
  unfold value_from_match in Hall. rewrite Hw in Hall.
  unfold _apply_caps_rules. rewrite (Hup _ Hall). reflexivity.
Qed.

End TokenizerValues.

Ltac split_tests :=
  repeat match goal with
  | H : context [(?a <=? ?b)%N] |- _ =>
    destruct (N.leb_spec a b); simpl in *; try discriminate; try lia
  | H : context [(?a =? ?b)%N] |- _ =>
    destruct (N.eqb_spec a b); simpl in *; try discriminate; try lia
  | |- context [(?a <=? ?b)%N] =>
    destruct (N.leb_spec a b); simpl in *; try discriminate; try lia
  | |- context [(?a =? ?b)%N] =>
    destruct (N.eqb_spec a b); simpl in *; try discriminate; try lia
  end.

Lemma lowered_not_upper (c0 : N) :
  word_text_char c0 = true -> Basic.upper_letter (lower_char c0) = false.
Proof.
  unfold word_text_char, cyr_class, punct, lower_char, Basic.upper_letter,
    between, contains.
  change (u "!?.,;") with [33; 63; 46; 44; 59]%N. simpl existsb.
  intros H. split_tests; reflexivity.
Qed.

Lemma basic_isupper_lowered (s : str) :
  Forall (fun c => exists c0, word_text_char c0 = true /\
                              c = lower_char c0) s ->
  isupper (Runtime := Basic.runtime) s = false.
Proof.
  intros Hs. simpl. unfold Basic.all_upper.
  replace (existsb Basic.upper_letter s) with false; [reflexivity|].
  symmetry. induction Hs as [|c s (c0 & Hc0 & ->) _ IH]; [reflexivity|].
  simpl. rewrite (lowered_not_upper c0 Hc0). exact IH.
Qed.

(** So, on ASCII and Cyrillic text, no word of any text reaches the
    factor 1.2. *)
Lemma caps_rule_never_fires (text : str) (t : Token) (score : float) :
  t ∈ tokenize_with_positions (rt := Basic.runtime) text ->
  is_emoji t = false ->
  _apply_caps_rules (rt := Basic.runtime) (value t) score = score.
Proof.
  apply (caps_rule_idle_on_tokenizer_words (rt := Basic.runtime)).
  exact basic_isupper_lowered.
Qed.

(** C5.  The caps rule tests [value], which the tokenizer has put in
    lower case: the text "ОТЛИЧНО" yields a token of value "отлично",
    [isupper] is false on it, and the text is scored 3.0, like
    "отлично", not 3.0 * 1.2. *)
Theorem caps_rule_misses_upper_case_text :
  tokenize_with_positions (rt := Basic.runtime) (u "ОТЛИЧНО")
  = [ {| value := u "отлично"; original_value := u "ОТЛИЧНО";
         is_emoji := false |} ] /\
  isupper (Runtime := Basic.runtime) (u "ОТЛИЧНО") = true /\
  isupper (Runtime := Basic.runtime) (u "отлично") = false /\
  _apply_vader_rules_enhanced (rt := Basic.runtime) Sample.analyzer
    (all_tokens (rt := Basic.runtime) unnormalized (u "ОТЛИЧНО"))
  = (3%float, 1) /\
  _apply_vader_rules_enhanced (rt := Basic.runtime) Sample.analyzer
    (all_tokens (rt := Basic.runtime) unnormalized (u "отлично"))
  = (3%float, 1) /\
  (3 * 1.2)%float <> 3%float.
Proof.
  repeat split; try (vm_compute; reflexivity).
  intros E. apply (f_equal Prim2SF) in E. vm_compute in E. discriminate.
Qed.

(** ** Keys of several words *)

Section MultiWord.

Lemma emoji_text_char_not_space (c : N) :
  emoji_text_char c = true -> c <> space.
Proof. intros Hc ->. vm_compute in Hc. discriminate. Qed.

Lemma lower_char_not_space (c : N) :
  word_text_char c = true -> lower_char c <> space.
Proof.
  unfold lower_char, space. intros Hc.
  destruct (between 0x410 0x42F c) eqn:E1.
  - unfold between in E1. apply andb_true_iff in E1 as [E1 _].
    apply N.leb_le in E1. lia.
  - destruct (c =? 0x401)%N; [discriminate|].
    intros ->. vm_compute in Hc. discriminate.
Qed.

Lemma value_from_match_no_space (t : Token) :
  value_from_match t -> has_space (value t) = false.
Proof.
  unfold value_from_match, has_space. intros Ht. apply contains_false.
  destruct (is_emoji t); (eapply Forall_impl; [exact Ht|]); simpl.
  - apply emoji_text_char_not_space.
  - intros c (c0 & Hc0 & ->). apply lower_char_not_space, Hc0.
Qed.

Lemma multi_word_keys_have_space :
  Forall (fun key => has_space key = true) multi_word_keys.
Proof.
  unfold multi_word_keys.
  repeat (constructor; [vm_compute; reflexivity|]). constructor.
Qed.

Lemma multi_word_key_at (i : nat) (key : str) :
  multi_word_keys !! i = Some key -> key ∈ multi_word_keys.
Proof. apply list_elem_of_lookup_2. Qed.

Lemma modifiers_split :
  modifiers = <[u "как бы" := 0.6%float]>
               (<[u "не совсем" := 0.5%float]>
                 (<[u "в некоторой степени" := 0.8%float]> modifiers_single)).
Proof. vm_cast_no_check (eq_refl modifiers). Qed.

Lemma contrast_split :
  contrast_words = {[ u "тем не менее" ]} ∪ contrast_single.
Proof. vm_cast_no_check (eq_refl contrast_words). Qed.

Lemma not_a_multi_word_key (v key : str) :
  has_space v = false -> key ∈ multi_word_keys -> v <> key.
Proof.
  intros Hv Hkey ->.
  pose proof multi_word_keys_have_space as Hall.
  rewrite Forall_forall in Hall. rewrite (Hall key Hkey) in Hv. discriminate.
Qed.

Lemma word_get_single (t : Token) :
  has_space (value t) = false ->
  word_get modifiers t = word_get modifiers_single t.
Proof.
  intros Hv. unfold word_get. destruct (is_emoji t); [reflexivity|]. simpl.
  rewrite modifiers_split, !lookup_insert_ne; [reflexivity | | |];
    apply not_eq_sym, not_a_multi_word_key; try exact Hv.
  - exact (multi_word_key_at 2 _ eq_refl).
  - exact (multi_word_key_at 1 _ eq_refl).
  - exact (multi_word_key_at 0 _ eq_refl).
Qed.

Lemma word_in_single (t : Token) :
  has_space (value t) = false ->
  word_in contrast_words t = word_in contrast_single t.
Proof.
  intros Hv. unfold word_in. destruct (is_emoji t); [reflexivity|]. simpl.
  assert (value t <> u "тем не менее") as Hne
    by (apply not_a_multi_word_key;
        [exact Hv | exact (multi_word_key_at 3 _ eq_refl)]).
  rewrite (bool_decide_ext (value t ∈ contrast_words)
             (value t ∈ contrast_single)); [reflexivity|].
  rewrite contrast_split, elem_of_union, elem_of_singleton. tauto.
Qed.

Lemma first_hit_ext {A} (f g : Token -> option A) (tokens : list Token)
  (js : list nat) :
  (forall t, t ∈ tokens -> f t = g t) ->
  first_hit f tokens js = first_hit g tokens js.
Proof.
  intros Hfg. induction js as [|j js IH]; [reflexivity|]. simpl.
  destruct (tokens !! j) as [t|] eqn:Et; simpl; [|exact IH].
  rewrite (Hfg t) by (eapply list_elem_of_lookup_2; exact Et).
  rewrite IH. reflexivity.
Qed.

End MultiWord.

(** C10, as the code has it.  No value the tokenizer produces contains
    a space; as long as the normalizer does not put one in, no token the
    rules receive has one of the keys of several words as its value,
    and the modifier and the contrast rule give what they give over the
    tables without these keys. *)
Theorem multi_word_entries_never_fire {rt : Runtime}
  (normalize : list Token -> list Token) (text : str) :
  (forall ws, Forall (fun t => has_space (value t) = false) ws ->
              Forall (fun t => has_space (value t) = false) (normalize ws)) ->
  let received := all_tokens normalize text in
  Forall (fun t => has_space (value t) = false)
    (tokenize_with_positions text) /\
  (forall t key, t ∈ received -> key ∈ multi_word_keys -> value t <> key) /\
  (forall (i : nat) (score : float),
     _apply_modifier_rules_enhanced received i score
     = modifier_rule modifiers_single received i score /\
     _apply_contrast_rules_enhanced received i score
     = contrast_rule contrast_single received i score).
Proof.
  intros Hnorm received.
  assert (Forall (fun t => has_space (value t) = false)
            (tokenize_with_positions text)) as Htok.
  { eapply Forall_impl; [apply tokenizer_values|].
    apply value_from_match_no_space. }
  assert (Forall (fun t => has_space (value t) = false) received) as Hrec.
  { unfold received, all_tokens. apply Forall_app. split.
    - apply Hnorm. rewrite Forall_forall in Htok. apply Forall_forall.
      intros t Ht. apply list_elem_of_filter in Ht as [_ Ht]. auto.
    - rewrite Forall_forall in Htok. apply Forall_forall.
      intros t Ht. apply list_elem_of_filter in Ht as [_ Ht]. auto. }
  rewrite Forall_forall in Hrec.
  split; [exact Htok|]. split.
  - intros t key Ht Hkey. apply not_a_multi_word_key; auto.
  - intros i score. split.
    + unfold _apply_modifier_rules_enhanced, modifier_rule.
      rewrite (first_hit_ext (word_get modifiers) (word_get modifiers_single));
        [reflexivity|].
      intros t Ht. apply word_get_single. auto.
    + unfold _apply_contrast_rules_enhanced, contrast_rule.
      rewrite (first_hit_ext (word_in contrast_words)
                 (word_in contrast_single)); [reflexivity|].
      intros t Ht. apply word_in_single. auto.
Qed.

Lemma multi_word_entries_never_fire_witness :
  let received :=
    all_tokens (rt := Basic.runtime) unnormalized (u "как бы хорошо") in
  Forall (fun t => has_space (value t) = false)
    (tokenize_with_positions (rt := Basic.runtime) (u "как бы хорошо")) /\
  (forall t key, t ∈ received -> key ∈ multi_word_keys -> value t <> key) /\
  (forall (i : nat) (score : float),
     _apply_modifier_rules_enhanced received i score
     = modifier_rule modifiers_single received i score /\
     _apply_contrast_rules_enhanced received i score
     = contrast_rule contrast_single received i score).
Proof.
  apply (multi_word_entries_never_fire (rt := Basic.runtime) unnormalized
           (u "как бы хорошо")).
  intros ws Hws. exact Hws.
Defined.

(** C10, for every text whatever the normalizer does, fails.  The
    rules look at the values the normalizer returns, and its contract
    lets a value be any text.  With a normalizer that gives "как" the
    base form "как бы", the text "как хорошо" reaches the rules with a
    token of that value, and the entry of "как бы" fires on the next
    word: the modifier rule gives 2.0 * 0.6 where the table without the
    keys of several words gives 2.0. *)
Lemma multi_word_entry_fires :
  normalizer_contract two_word_lemma /\
  let received :=
    all_tokens (rt := Basic.runtime) two_word_lemma (u "как хорошо") in
  (exists t, received !! 0%nat = Some t /\ value t = u "как бы") /\
  _apply_modifier_rules_enhanced received 1 2 = (2 * 0.6)%float /\
  modifier_rule modifiers_single received 1 2 = 2%float.
Proof.
  split.
  - intros ws Hws. unfold two_word_lemma.
    induction Hws as [|t ws Ht _ IH]; [constructor|]. simpl.
    constructor; [|exact IH].
    case_bool_decide; simpl; auto.
  - split; [|split].
    + eexists. split; [vm_compute; reflexivity|]. reflexivity.
    + vm_compute. reflexivity.
    + vm_compute. reflexivity.
Qed.

(** ** Repeated calls *)

(** Every method on the way of [analyze] returns the object as it found
    it, and returns what the function of the object and the arguments
    says. *)
Section Frame.
Context {rt : Runtime}.
Variable normalize : list Token -> list Token.
Variable self : SentimentAnalyzer.

Lemma in_attribute_frame (name : SentimentAnalyzer -> gset str) (t : Token) :
  Object.in_attribute name t self = (Ok (word_in (name self) t), self).
Proof.
  unfold Object.in_attribute, word_in. destruct (is_emoji t); reflexivity.
Qed.

Lemma scan_frame {A} (test : Token -> Object.method (option A))
  (f : Token -> option A) (tokens : list Token) (js : list nat) :
  (forall t, test t self = (Ok (f t), self)) ->
  Object.scan test tokens js self = (Ok (first_hit f tokens js), self).
Proof.
  intros Htest. induction js as [|j js IH]; [reflexivity|]. simpl.
  destruct (tokens !! j) as [t|]; simpl; [|exact IH].
  unfold mbind, Object.method_bind, Object.bind. rewrite Htest.
  destruct (f t); [reflexivity | exact IH].
Qed.

Lemma negation_frame (tokens : list Token) (index : nat) (score : float) :
  Object._apply_negation_rules_enhanced tokens index score self
  = (Ok (_apply_negation_rules_enhanced self tokens index score), self).
Proof.
  unfold Object._apply_negation_rules_enhanced,
    _apply_negation_rules_enhanced, mbind, Object.method_bind, Object.bind.
  rewrite (scan_frame _ (word_in (_negation_words self)))
    by (intros t; apply in_attribute_frame).
  destruct (first_hit _ tokens (window 3 index)) as [[j a]|]; reflexivity.
Qed.

Lemma booster_frame (tokens : list Token) (index : nat) (score : float) :
  Object._apply_booster_rules_enhanced tokens index score self
  = (Ok (_apply_booster_rules_enhanced self tokens index score), self).
Proof.
  unfold Object._apply_booster_rules_enhanced,
    _apply_booster_rules_enhanced, word_get,
    mbind, Object.method_bind, Object.bind.
  destruct (0 <? index)%nat; simpl.
  - destruct (tokens !! (index - 1)%nat) as [t|]; simpl.
    + destruct (is_emoji t); simpl.
      * destruct (if Z.of_nat index <? Z.of_nat (length tokens) - 1
                  then _ else _); reflexivity.
      * destruct (_booster_words self !! value t); [reflexivity|].
        destruct (if Z.of_nat index <? Z.of_nat (length tokens) - 1
                  then _ else _); reflexivity.
    + destruct (if Z.of_nat index <? Z.of_nat (length tokens) - 1
                then _ else _); reflexivity.
  - destruct (if Z.of_nat index <? Z.of_nat (length tokens) - 1
              then _ else _); reflexivity.
Qed.

Lemma count_emojis_frame (tokens : list Token) (p n : Z) :
  Object.count_emojis tokens p n self
  = (Ok (fold_left (fun '(positive_emojis, negative_emojis) token =>
           if is_emoji token then
             let emoji_score :=
               default 0%float (_lexicon self !! value token) in
             if (0 <? emoji_score)%float
             then (positive_emojis + 1, negative_emojis)
             else if (emoji_score <? 0)%float
             then (positive_emojis, negative_emojis + 1)
             else (positive_emojis, negative_emojis)
           else (positive_emojis, negative_emojis)) tokens (p, n)), self).
Proof.
  revert p n. induction tokens as [|t tokens IH]; intros p n; [reflexivity|].
  simpl. destruct (is_emoji t); [|apply IH].
  unfold mbind, Object.method_bind, Object.bind, Object.attribute.
  destruct (0 <? _)%float; [apply IH|].
  destruct (_ <? 0)%float; apply IH.
Qed.

Lemma global_frame (tokens : list Token) (score : float) :
  Object._apply_global_emoji_rules tokens score self
  = (Ok (_apply_global_emoji_rules self tokens score), self).
Proof.
  unfold Object._apply_global_emoji_rules, _apply_global_emoji_rules,
    count_emojis, mbind, Object.method_bind, Object.bind.
  rewrite count_emojis_frame.
  destruct (fold_left _ tokens (0, 0)) as [p n]. reflexivity.
Qed.

Lemma vader_loop_frame (tokens rest : list Token) (i : nat) (score : float)
  (word_count : Z) :
  Object.vader_loop tokens i rest score word_count self
  = (Ok (vader_loop self tokens i rest score word_count), self).
Proof.
  revert i score word_count.
  induction rest as [|t rest IH]; intros i score word_count; [reflexivity|].
  simpl. unfold word_score,
    mbind, Object.method_bind, Object.bind, Object.attribute.
  destruct (_lexicon self !! value t) as [w|]; [|apply IH].
  destruct (is_emoji t); simpl.
  - rewrite booster_frame. apply IH.
  - rewrite negation_frame, booster_frame. apply IH.
Qed.

Lemma vader_rules_frame (tokens : list Token) :
  Object._apply_vader_rules_enhanced tokens self
  = (Ok (_apply_vader_rules_enhanced self tokens), self).
Proof.
  unfold Object._apply_vader_rules_enhanced, _apply_vader_rules_enhanced,
    mbind, Object.method_bind, Object.bind.
  rewrite vader_loop_frame.
  destruct (vader_loop self tokens 0 tokens 0 0) as [score word_count].
  rewrite global_frame. reflexivity.
Qed.

Lemma analyze_frame (text : str) :
  Object.analyze normalize text self = (analyze self normalize text, self).
Proof.
  unfold Object.analyze, analyze, all_tokens,
    mbind, Object.method_bind, Object.bind.
  rewrite vader_rules_frame.
  destruct (_apply_vader_rules_enhanced self _) as [score word_count].
  unfold Object.lift.
  destruct (_normalize_vader_score score word_count); reflexivity.
Qed.

Lemma session_frame (texts : list str) :
  Object.session normalize texts self
  = ((fun text => (tokenize_with_positions text,
                   analyze self normalize text)) <$> texts, self).
Proof.
  induction texts as [|text texts IH]; [reflexivity|].
  simpl. unfold Object.request. rewrite analyze_frame, IH. reflexivity.
Qed.

End Frame.



(** * Further properties *)

(** ** The tokenizer *)

Section TokenizerShape.
Context {rt : Runtime}.

Lemma span_eq (p : N -> bool) (l : str) : l = (span p l).1 ++ (span p l).2.
Proof.
  induction l as [|c r IH]; simpl; [reflexivity|].
  destruct (p c); [|reflexivity].
  destruct (span p r) as [a b]. simpl in *. f_equal. exact IH.
Qed.

Lemma span_app_all (p : N -> bool) (a b : str) :
  Forall (fun c => p c = true) a ->
  span p (a ++ b) = (a ++ (span p b).1, (span p b).2).
Proof.
  induction 1 as [|c a Hc _ IH]; simpl.
  - destruct (span p b); reflexivity.
  - rewrite Hc, IH. reflexivity.
Qed.

Lemma span_stops (p : N -> bool) (c : N) (r : str) :
  p c = false -> span p (c :: r) = ([], c :: r).
Proof. intros Hc. simpl. rewrite Hc. reflexivity. Qed.

Lemma cyr_not_punct (c : N) : cyr_class c = true -> punct c = false.
Proof.
  unfold cyr_class, punct, between, contains.
  change (u "!?.,;") with [33; 63; 46; 44; 59]%N. simpl existsb.
  intros H. split_tests; reflexivity.
Qed.

Lemma strip_punct_word (w p : str) :
  w <> [] -> Forall (fun c => cyr_class c = true) w ->
  Forall (fun c => punct c = true) p ->
  strip_punct (w ++ p) = w.
Proof.
  intros Hne Hw Hp. unfold strip_punct.
  rewrite rev_app_distr, span_app_all by (apply Forall_rev; exact Hp).
  simpl. destruct (rev w) as [|c r] eqn:Er.
  - apply (f_equal (@rev N)) in Er. rewrite rev_involutive in Er.
    contradiction.
  - rewrite span_stops.
    + cbn [snd]. rewrite <- Er. apply rev_involutive.
    + apply cyr_not_punct. apply Forall_rev in Hw. rewrite Er in Hw.
      inversion Hw; assumption.
Qed.

Lemma backtrack_pos (n : nat) (l : str) (k : nat) :
  backtrack n l = Some k -> (0 < k)%nat.
Proof.
  induction n as [|n IH]; simpl; [discriminate|].
  destruct (boundary _ _); [intros [= <-]; lia | exact IH].
Qed.

Lemma span_fst_length (p : N -> bool) (l : str) :
  (length (span p l).1 <= length l)%nat.
Proof.
  rewrite (span_eq p l) at 2. rewrite length_app. lia.
Qed.

Lemma match_word_text (prev : option N) (l m : str) :
  match_word prev l = Some m ->
  (exists w p, word_text m w p) /\ exists rest, l = m ++ rest.
Proof.
  unfold match_word. destruct (boundary prev (head l)); [|discriminate].
  destruct (backtrack _ l) as [k|] eqn:Ek; [|discriminate].
  intros [= <-].
  pose proof (backtrack_le _ _ _ Ek) as Hle.
  pose proof (backtrack_pos _ _ _ Ek) as Hpos.
  pose proof (span_fst_length cyr_class l) as Hlen.
  split.
  - exists (take k l), (span punct (drop k l)).1. repeat split.
    + intros E. apply (f_equal (@length N)) in E.
      rewrite length_take in E. simpl in E. lia.
    + apply take_span_Forall. exact Hle.
    + apply span_fst_Forall.
  - exists (span punct (drop k l)).2.
    rewrite <- app_assoc, <- span_eq, take_drop. reflexivity.
Qed.

Lemma mouths_text (pre r m : str) :
  mouths pre r = Some m ->
  exists ms, m = pre ++ ms /\ ms <> [] /\
             Forall (fun c => mouth c = true) ms /\
             exists rest, r = ms ++ rest.
Proof.
  unfold mouths. pose proof (span_fst_Forall mouth r) as Hm.
  pose proof (span_eq mouth r) as Er.
  destruct (span mouth r) as [[|c a] b]; [discriminate|].
  intros [= <-]. exists (c :: a). repeat split; [discriminate | exact Hm |].
  exists b. exact Er.
Qed.

Lemma match_emoticon_text (l m : str) :
  match_emoticon l = Some m -> emoji_text m /\ exists rest, l = m ++ rest.
Proof.
  unfold match_emoticon. destruct l as [|e r]; [discriminate|].
  destruct (eyes e) eqn:Ee; [|discriminate].
  assert (forall m0, mouths [e] r = Some m0 ->
            emoji_text m0 /\ exists rest, e :: r = m0 ++ rest) as Hplain.
  { intros m0 Hm0.
    destruct (mouths_text _ _ _ Hm0) as (ms & -> & Hne & Hms & rest & ->).
    split; [|exists rest; reflexivity].
    right. exists e, [], ms. repeat split; auto. }
  destruct r as [|n r']; [discriminate|].
  destruct (nose n) eqn:En; [|apply Hplain].
  destruct (mouths [e; n] r') as [m'|] eqn:E1; [|apply Hplain].
  intros [= <-].
  destruct (mouths_text _ _ _ E1) as (ms & -> & Hne & Hms & rest & ->).
  split; [|exists rest; reflexivity].
  right. exists e, [n], ms. repeat split; eauto.
Qed.

Lemma comprehensive_shape (prev : option N) (l : str) (m : str * bool) :
  comprehensive prev l = Some m ->
  match_shape m /\ exists rest, l = m.1 ++ rest.
Proof.
  unfold comprehensive, match_shape.
  destruct (match_emoticon l) as [e|] eqn:Ee.
  - intros [= <-]. simpl. exact (match_emoticon_text _ _ Ee).
  - destruct l as [|c r]; [discriminate|].
    destruct (emoji_char c) eqn:Ec.
    + intros [= <-]. simpl. split; [left; eauto|]. exists r. reflexivity.
    + destruct (match_word prev (c :: r)) as [w|] eqn:Ew; [|discriminate].
      intros [= <-]. simpl. exact (match_word_text _ _ _ Ew).
Qed.

Lemma emoji_text_nonempty (m : str) : emoji_text m -> m <> [].
Proof.
  intros [(c & -> & _) | (e & n & ms & -> & _)]; discriminate.
Qed.

Lemma match_shape_nonempty (m : str * bool) : match_shape m -> m.1 <> [].
Proof.
  destruct m as [text []]; unfold match_shape; simpl.
  - intros (w & p & -> & Hne & _) E. apply app_eq_nil in E as [? _].
    contradiction.
  - apply emoji_text_nonempty.
Qed.

Lemma cut_from_gap (ms : list str) (g l : str) :
  cut_from ms l -> cut_from ms (g ++ l).
Proof.
  intros H. destruct H as [l | gap m ms rest H].
  - constructor.
  - rewrite app_assoc. constructor. exact H.
Qed.

Lemma finditer_cut (l : str) (prev : option N) (skip : nat) :
  Forall match_shape (finditer prev skip l) /\
  cut_from (map fst (finditer prev skip l)) (drop skip l).
Proof.
  revert prev skip. induction l as [|c r IH]; intros prev skip; simpl.
  - split; [constructor|]. rewrite drop_nil. constructor.
  - destruct skip as [|k]; [|apply IH].
    destruct (comprehensive prev (c :: r)) as [[m g]|] eqn:E.
    + destruct (comprehensive_shape _ _ _ E) as [Hs [rest Hrest]].
      pose proof (match_shape_nonempty _ Hs) as Hne. simpl in *.
      destruct m as [|c' m']; [contradiction|]. simpl in Hrest.
      injection Hrest as <- ->. simpl.
      rewrite Nat.sub_0_r.
      destruct (IH (Some c) (length m')) as [IH1 IH2].
      split; [constructor; assumption|].
      rewrite drop_app_length in IH2.
      exact (cut_piece [] (c :: m') _ rest IH2).
    + destruct (IH (Some c) 0%nat) as [IH1 IH2]. split; [exact IH1|].
      exact (cut_from_gap _ [c] _ IH2).
Qed.

Lemma token_of_match_one (m : str * bool) :
  match_shape m ->
  token_of_match m = [token_for m] /\ token_shape (token_for m) /\
  nonempty (value (token_for m)) = true.
Proof.
  destruct m as [text g]. unfold match_shape, token_of_match, token_for,
    token_shape. simpl. destruct g; simpl.
  - intros (w & p & (-> & Hne & Hw & Hp)).
    rewrite (strip_punct_word w p Hne Hw Hp).
    destruct w as [|c w]; [contradiction|]. simpl. repeat split.
    exists (c :: w), p. repeat split; assumption.
  - intros Hm. pose proof (emoji_text_nonempty _ Hm) as Hne.
    destruct text; [contradiction|]. simpl. repeat split. exact Hm.
Qed.

Lemma tokens_of_matches (ms : list (str * bool)) :
  Forall match_shape ms ->
  filter (fun t => nonempty (value t)) (concat (map token_of_match ms))
  = map token_for ms.
Proof.
  induction 1 as [|m ms Hm _ IH]; [reflexivity|]. simpl.
  destruct (token_of_match_one m Hm) as (-> & _ & Hv).
  simpl. rewrite filter_cons_True by (rewrite Hv; exact I).
  f_equal. exact IH.
Qed.

Lemma tokenize_matches (text : str) :
  tokenize_with_positions text = map token_for (finditer None 0 text).
Proof.
  unfold tokenize_with_positions. apply tokens_of_matches.
  apply (finditer_cut text None 0).
Qed.

End TokenizerShape.

Lemma tokens_originals {rt : Runtime} (text : str) :
  map original_value (tokenize_with_positions text)
  = map fst (finditer None 0 text).
Proof.
  rewrite tokenize_matches, map_map. apply map_ext.
  intros [m []]; reflexivity.
Qed.

(** X1.  Every token has one of two shapes.  A word token's
    [original_value] is a non-empty run of Russian letters followed by
    punctuation marks, and its [value] is that run in lower case; an
    emoji token's [value] is its [original_value], one character of the
    emoji ranges or an emoticon of eyes, at most one nose and mouths. *)
Theorem tokens_have_shape {rt : Runtime} (text : str) :
  Forall token_shape (tokenize_with_positions text).
Proof.
  rewrite tokenize_matches. apply Forall_map.
  eapply Forall_impl; [apply (finditer_cut text None 0)|].
  intros m Hm. apply (token_of_match_one m Hm).
Qed.

(** X2.  The [original_value]s of the tokens are pieces of the text,
    taken from left to right without overlap: the text is a gap, the
    first token, a gap, the second token, and so on. *)
Theorem tokens_cut_from_text {rt : Runtime} (text : str) :
  cut_from (map original_value (tokenize_with_positions text)) text.
Proof.
  rewrite tokens_originals. apply (finditer_cut text None 0).
Qed.

Section TokenCount.
Context {rt : Runtime}.

Lemma cut_from_length (ms : list str) (l : str) :
  cut_from ms l -> Forall (fun m => m <> []) ms ->
  (length ms <= length l)%nat.
Proof.
  induction 1 as [l | gap m ms rest _ IH]; intros Hne; simpl; [lia|].
  inversion Hne as [|? ? Hm Hms]; subst. specialize (IH Hms).
  rewrite !length_app. destruct m; [contradiction|]. simpl. lia.
Qed.

Lemma tokens_at_most_characters (text : str) :
  (length (tokenize_with_positions text) <= length text)%nat.
Proof.
  rewrite <- (length_map original_value), tokens_originals.
  destruct (finditer_cut text None 0) as [Hs Hc].
  apply cut_from_length; [exact Hc|].
  apply Forall_map. eapply Forall_impl; [exact Hs|].
  apply match_shape_nonempty.
Qed.

Lemma finditer_no_start (l : str) (prev : option N) (skip : nat) :
  Forall no_start l -> finditer prev skip l = [].
Proof.
  intros Hl. revert prev skip.
  induction Hl as [|c r (He & Hj & Hc) _ IH]; intros prev skip;
    [reflexivity|].
  simpl. destruct skip; [|apply IH].
  unfold comprehensive, match_emoticon, match_word. rewrite He, Hj.
  simpl. rewrite Hc. simpl. destruct (boundary _ _); apply IH.
Qed.

Lemma no_start_by_test (l : str) :
  forallb (fun c => negb (eyes c || emoji_char c || cyr_class c)) l = true ->
  Forall no_start l.
Proof.
  intros Hl. apply Forall_forall. intros c Hc.
  rewrite forallb_forall in Hl. specialize (Hl c (proj1 (list_elem_of_In _ _) Hc)).
  unfold no_start. destruct (eyes c), (emoji_char c), (cyr_class c);
    try discriminate; auto.
Qed.

Lemma normalize_nothing (normalize : list Token -> list Token) :
  normalizer_contract normalize -> normalize [] = [].
Proof.
  intros Hn. specialize (Hn [] (List.Forall_nil _)). inversion Hn.
  reflexivity.
Qed.

End TokenCount.

(** X3.  A text in which no character can start a match (no eyes of an
    emoticon, no character of the emoji ranges, no Russian letter) has
    no tokens, and its analysis is the neutral result with
    [word_count] 0, whatever the lexicon. *)
Theorem text_without_start_is_neutral {rt : Runtime}
  (self : SentimentAnalyzer) (normalize : list Token -> list Token)
  (text : str) :
  normalizer_contract normalize -> Forall no_start text ->
  tokenize_with_positions text = [] /\
  analyze self normalize text = Ok neutral_result.
Proof.
  intros Hn Htext.
  assert (tokenize_with_positions text = []) as Htok
    by (rewrite tokenize_matches, finditer_no_start by assumption;
        reflexivity).
  split; [exact Htok|]. apply analyze_zero_count.
  unfold all_tokens. rewrite Htok, !filter_nil.
  rewrite (normalize_nothing normalize Hn). reflexivity.
Qed.

Lemma text_without_start_is_neutral_witness :
  tokenize_with_positions (rt := Basic.runtime) (u "hello, world 123!") = [] /\
  analyze (rt := Basic.runtime) Sample.analyzer unnormalized
    (u "hello, world 123!") = Ok neutral_result.
Proof.
  apply (text_without_start_is_neutral (rt := Basic.runtime) Sample.analyzer
           unnormalized (u "hello, world 123!")).
  - exact unnormalized_contract.
  - apply no_start_by_test. vm_compute. reflexivity.
Defined.

(** ** The rules *)

Section RuleEngine.
Context {rt : Runtime}.
Variable self : SentimentAnalyzer.

Lemma word_score_hit (tokens : list Token) (i : nat) (t : Token) :
  is_Some (word_score self tokens i t) <-> in_lexicon self t.
Proof.
  unfold word_score, in_lexicon.
  destruct (_lexicon self !! value t); split; intros [x Hx];
    try discriminate; eauto.
Qed.

Lemma vader_loop_count (tokens rest : list Token) (i : nat) (s : float)
  (wc : Z) :
  (vader_loop self tokens i rest s wc).2
  = wc + Z.of_nat (lexicon_hits self rest).
Proof.
  unfold lexicon_hits. revert i s wc.
  induction rest as [|t rest IH]; intros i s wc; simpl; [lia|].
  destruct (word_score self tokens i t) as [w|] eqn:E.
  - rewrite filter_cons_True by (apply (word_score_hit tokens i); eauto).
    rewrite IH. simpl. lia.
  - rewrite filter_cons_False; [apply IH|].
    intros Hin. apply (word_score_hit tokens i) in Hin as [x Hx]. congruence.
Qed.

Lemma rules_count (tokens : list Token) :
  (_apply_vader_rules_enhanced self tokens).2
  = Z.of_nat (lexicon_hits self tokens).
Proof.
  unfold _apply_vader_rules_enhanced.
  pose proof (vader_loop_count tokens tokens 0 0%float 0) as H.
  destruct (vader_loop self tokens 0 tokens 0 0) as [s wc]. simpl in *.
  lia.
Qed.

Lemma lexicon_hits_le (tokens : list Token) :
  (lexicon_hits self tokens <= length tokens)%nat.
Proof. apply length_filter. Qed.

End RuleEngine.

(** X4.  [word_count] is the number of tokens handed to the rules whose
    value is a key of the lexicon, words and emoji alike; it lies
    between 0 and the number of tokens. *)
Theorem word_count_counts_lexicon_tokens {rt : Runtime}
  (self : SentimentAnalyzer) (tokens : list Token) :
  (_apply_vader_rules_enhanced self tokens).2
  = Z.of_nat (lexicon_hits self tokens) /\
  0 <= (_apply_vader_rules_enhanced self tokens).2
    <= Z.of_nat (length tokens).
Proof.
  rewrite rules_count. pose proof (lexicon_hits_le self tokens). lia.
Qed.

Section CountBound.
Context {rt : Runtime}.
Variable normalize : list Token -> list Token.
Hypothesis normalize_ok : normalizer_contract normalize.

Lemma filter_split_length {A} (P : A -> bool) (l : list A) :
  (length (filter (fun x => negb (P x)) l) + length (filter P l))%nat
  = length l.
Proof.
  induction l as [|x l IH]; [reflexivity|].
  destruct (P x) eqn:E.
  - rewrite (filter_cons_True P) by (rewrite E; exact I).
    rewrite (filter_cons_False (fun x => negb (P x)))
      by (rewrite E; intros Hf; exact Hf).
    simpl. lia.
  - rewrite (filter_cons_False P) by (rewrite E; intros Hf; exact Hf).
    rewrite (filter_cons_True (fun x => negb (P x))) by (rewrite E; exact I).
    simpl. lia.
Qed.

Lemma all_tokens_length (text : str) :
  length (all_tokens normalize text)
  = length (tokenize_with_positions text).
Proof.
  unfold all_tokens. rewrite length_app.
  set (ws := filter (fun token => negb (is_emoji token)) _).
  assert (Forall (fun t => is_emoji t = false) ws) as Hws.
  { eapply Forall_impl; [apply filtered_satisfy|].
    intros t Ht. simpl in Ht.
    destruct (is_emoji t); [contradiction|reflexivity]. }
  rewrite <- (Forall2_length _ _ _ (normalize_ok ws Hws)).
  apply filter_split_length.
Qed.

End CountBound.

(** X5.  A result of [analyze] never counts more matched words than the
    text has characters: each counted token is a token of the text, and
    the tokens are separate non-empty pieces of it. *)
Theorem word_count_at_most_text_length {rt : Runtime}
  (self : SentimentAnalyzer) (normalize : list Token -> list Token)
  (text : str) (r : SentimentResult) :
  normalizer_contract normalize ->
  analyze self normalize text = Ok r ->
  0 <= word_count r <= Z.of_nat (length text).
Proof.
  intros Hn Hr. destruct (analyze_ok_inv _ _ _ _ Hr) as (_ & _ & ->).
  rewrite rules_count.
  pose proof (lexicon_hits_le self (all_tokens normalize text)) as Hb.
  rewrite (all_tokens_length normalize Hn) in Hb.
  pose proof (tokens_at_most_characters text). lia.
Qed.

Lemma word_count_at_most_text_length_witness :
  exists r,
    analyze (rt := Basic.runtime) Sample.analyzer unnormalized
      (u "не плохо :)") = Ok r /\
    0 <= word_count r <= Z.of_nat (length (u "не плохо :)")).
Proof.
  eexists. split; [vm_compute; reflexivity|].
  apply (word_count_at_most_text_length (rt := Basic.runtime) Sample.analyzer
           unnormalized (u "не плохо :)")).
  - exact unnormalized_contract.
  - vm_compute. reflexivity.
Defined.

Section PlainTokens.
Context {rt : Runtime}.
Variable self : SentimentAnalyzer.

Lemma first_hit_none {A} (f : Token -> option A) (tokens : list Token)
  (js : list nat) :
  (forall t, t ∈ tokens -> f t = None) -> first_hit f tokens js = None.
Proof.
  intros Hf. induction js as [|j js IH]; [reflexivity|]. simpl.
  destruct (tokens !! j) as [t|] eqn:Et; simpl; [|exact IH].
  rewrite (Hf t) by (eapply list_elem_of_lookup_2; exact Et). exact IH.
Qed.

Lemma lookup_bind_none {A} (f : Token -> option A) (tokens : list Token)
  (j : nat) :
  (forall t, t ∈ tokens -> f t = None) -> tokens !! j ≫= f = None.
Proof.
  intros Hf. destruct (tokens !! j) as [t|] eqn:Et; [|reflexivity].
  simpl. apply Hf. eapply list_elem_of_lookup_2; exact Et.
Qed.

Lemma word_get_None (d : gmap str float) (t : Token) :
  ~ is_Some (d !! value t) -> word_get d t = None.
Proof.
  intros Hn. unfold word_get. destruct (is_emoji t); [reflexivity|]. simpl.
  destruct (d !! value t) eqn:E; [|reflexivity]. destruct Hn. eauto.
Qed.

Lemma plain_silent (t : Token) :
  plain_token self t ->
  word_in (_negation_words self) t = None /\
  word_get (_booster_words self) t = None /\
  word_in _intensifiers t = None /\
  word_get modifiers t = None /\
  word_in contrast_words t = None.
Proof.
  intros (_ & Hc & _). unfold context_word in Hc.
  repeat split; (apply word_in_None || apply word_get_None); tauto.
Qed.

Lemma plain_word_score (tokens : list Token) (i : nat) (t : Token) :
  Forall (plain_token self) tokens -> plain_token self t ->
  word_score self tokens i t = _lexicon self !! value t.
Proof.
  intros Hall Ht. rewrite Forall_forall in Hall.
  unfold word_score. destruct (_lexicon self !! value t) as [s|]; [|reflexivity].
  destruct Ht as (Hw & _ & He & Hq & Hcaps). rewrite Hw. simpl.
  unfold _apply_negation_rules_enhanced, _apply_booster_rules_enhanced,
    _apply_caps_rules, _apply_emoji_punctuation_rules,
    _apply_modifier_rules_enhanced, modifier_rule,
    _apply_contrast_rules_enhanced, contrast_rule.
  rewrite !first_hit_none by (intros t' Ht'; apply plain_silent; auto).
  rewrite !lookup_bind_none by (intros t' Ht'; apply plain_silent; auto).
  rewrite Hcaps, Hw, He, Hq.
  destruct (0 <? i)%nat, (Z.of_nat i <? Z.of_nat (length tokens) - 1);
    reflexivity.
Qed.

Lemma plain_loop (tokens rest : list Token) (i : nat) (s : float) (wc : Z) :
  Forall (plain_token self) tokens -> Forall (plain_token self) rest ->
  (vader_loop self tokens i rest s wc).1
  = fold_left (fun acc t => match _lexicon self !! value t with
                            | Some x => (acc + x)%float
                            | None => acc
                            end) rest s.
Proof.
  intros Hall Hrest. revert i s wc.
  induction Hrest as [|t rest Ht _ IH]; intros i s wc; [reflexivity|].
  simpl. rewrite (plain_word_score tokens i t Hall Ht).
  destruct (_lexicon self !! value t); apply IH.
Qed.

Lemma count_absent (c : N) (s : str) : contains c s = false -> count c s = 0.
Proof.
  unfold contains, count. induction s as [|x s IH]; [reflexivity|]. simpl.
  intros [Hx Hs]%orb_false_iff.
  rewrite filter_cons_False by (rewrite Hx; intros Hf; exact Hf).
  exact (IH Hs).
Qed.

Lemma total_absent (c : N) (tokens : list Token) :
  Forall (fun t => contains c (original_value t) = false) tokens ->
  total c tokens = 0.
Proof.
  unfold total. induction 1 as [|t tokens Ht _ IH]; [reflexivity|].
  simpl. rewrite (count_absent _ _ Ht). exact IH.
Qed.

Lemma count_emojis_words (tokens : list Token) :
  Forall (fun t => is_emoji t = false) tokens ->
  count_emojis self tokens = (0, 0).
Proof.
  intros Hall. unfold count_emojis. generalize (0, 0).
  induction Hall as [|t tokens Ht _ IH]; intros [a b]; [reflexivity|].
  simpl. rewrite Ht. apply IH.
Qed.

Lemma plain_global (tokens : list Token) (s : float) :
  Forall (plain_token self) tokens ->
  _apply_global_emoji_rules self tokens s = s.
Proof.
  intros Hall. unfold _apply_global_emoji_rules.
  rewrite count_emojis_words, !total_absent; [reflexivity | | |];
    (eapply Forall_impl; [exact Hall|]); unfold plain_token; tauto.
Qed.

End PlainTokens.

(** X6.  Over word tokens that trigger no rule (none is a negation,
    booster, intensifier, modifier or contrast word, none carries "!" or
    "?", none is in capitals) the raw score is the plain sum of the
    lexicon scores of the tokens, in their order, and the count is the
    number of tokens found in the lexicon. *)
Theorem plain_tokens_sum_lexicon_scores {rt : Runtime}
  (self : SentimentAnalyzer) (tokens : list Token) :
  Forall (plain_token self) tokens ->
  _apply_vader_rules_enhanced self tokens
  = (plain_sum self tokens, Z.of_nat (lexicon_hits self tokens)).
Proof.
  intros Hall.
  pose proof (rules_count self tokens) as Hc.
  pose proof (plain_loop self tokens tokens 0 0%float 0 Hall Hall) as Hs.
  unfold _apply_vader_rules_enhanced in *.
  destruct (vader_loop self tokens 0 tokens 0 0) as [s wc]. simpl in *.
  rewrite (plain_global self tokens s Hall), Hs, Hc. reflexivity.
Qed.

Lemma plain_tokens_sum_lexicon_scores_witness :
  let tokens := [Sample.word "это"; Sample.word "хорошо";
                 Sample.word "и"; Sample.word "отлично"] in
  _apply_vader_rules_enhanced (rt := Basic.runtime) Sample.analyzer tokens
  = (plain_sum Sample.analyzer tokens,
     Z.of_nat (lexicon_hits Sample.analyzer tokens)).
Proof.
  apply (plain_tokens_sum_lexicon_scores (rt := Basic.runtime)
           Sample.analyzer).
  repeat (constructor;
    [ split; [reflexivity|]; split;
      [ unfold context_word;
        intros [Hc|[Hc|[Hc|[Hc|Hc]]]];
        (apply (bool_decide_eq_true_2 _) in Hc || apply bool_decide_eq_true_2 in Hc);
        vm_compute in Hc; discriminate
      | repeat split; vm_compute; reflexivity ] |]).
  constructor.
Defined.

Section Locality.
Context {rt : Runtime}.
Variable self : SentimentAnalyzer.

Lemma first_hit_local {A} (f : Token -> option A)
  (tokens tokens' : list Token) (js : list nat) :
  (forall j, j ∈ js -> tokens !! j = tokens' !! j) ->
  first_hit f tokens js = first_hit f tokens' js.
Proof.
  induction js as [|j js IH]; intros Hjs; [reflexivity|]. simpl.
  rewrite <- (Hjs j) by (left; reflexivity).
  rewrite IH; [reflexivity|]. intros k Hk. apply Hjs. right. exact Hk.
Qed.

Lemma in_window (w i j : nat) :
  j ∈ window w i <-> (i - w <= j < i)%nat.
Proof. unfold window. rewrite elem_of_seq. lia. Qed.

(** The test [index < len(tokens) - 1] only repeats that there is a
    token after [index]. *)
Lemma lookup_after {A} (f : Token -> option A) (tokens : list Token)
  (i : nat) :
  (if Z.of_nat i <? Z.of_nat (length tokens) - 1
   then tokens !! (i + 1)%nat ≫= f else None)
  = tokens !! (i + 1)%nat ≫= f.
Proof.
  destruct (tokens !! (i + 1)%nat) as [t|] eqn:Et.
  - apply lookup_lt_Some in Et.
    destruct (Z.ltb_spec (Z.of_nat i) (Z.of_nat (length tokens) - 1));
      [reflexivity | lia].
  - destruct (_ <? _); reflexivity.
Qed.

(** Likewise [index > 0] for the token before. *)
Lemma lookup_before {A} (f : Token -> option A) (tokens : list Token)
  (i : nat) :
  (if (0 <? i)%nat then tokens !! (i - 1)%nat ≫= f else None)
  = match i with
    | O => None
    | S k => tokens !! k ≫= f
    end.
Proof.
  destruct i as [|k]; [reflexivity|]. simpl.
  rewrite Nat.sub_0_r. reflexivity.
Qed.

End Locality.

(** X7.  The adjusted score of the token at position [i] depends on
    the token itself, on the five tokens before it and on the one after
    it, and on nothing else of the list: two lists that agree on these
    positions give the token the same score. *)
Theorem token_score_depends_on_window {rt : Runtime}
  (self : SentimentAnalyzer) (tokens tokens' : list Token) (i : nat)
  (t : Token) :
  same_context tokens tokens' i ->
  word_score self tokens i t = word_score self tokens' i t.
Proof.
  intros Hctx. unfold word_score.
  destruct (_lexicon self !! value t) as [s|]; [|reflexivity].
  unfold _apply_negation_rules_enhanced, _apply_booster_rules_enhanced,
    _apply_modifier_rules_enhanced, modifier_rule,
    _apply_contrast_rules_enhanced, contrast_rule.
  rewrite !lookup_after, !lookup_before.
  rewrite (first_hit_local _ tokens tokens' (window 3 i))
    by (intros j Hj%in_window; apply Hctx; lia).
  rewrite (first_hit_local _ tokens tokens' (window 2 i))
    by (intros j Hj%in_window; apply Hctx; lia).
  rewrite (first_hit_local _ tokens tokens' (window 5 i))
    by (intros j Hj%in_window; apply Hctx; lia).
  rewrite (Hctx (i + 1)%nat) by lia.
  destruct i as [|k]; [reflexivity|].
  rewrite (Hctx k) by lia. reflexivity.
Qed.

Lemma token_score_depends_on_window_witness :
  let near := [Sample.word "не"; Sample.word "очень"; Sample.word "плохо";
               Sample.word "же"] in
  word_score (rt := Basic.runtime) Sample.analyzer
    (near ++ [Sample.word "но"; Sample.word "ужасно"]) 2 (Sample.word "плохо")
  = word_score (rt := Basic.runtime) Sample.analyzer
      (near ++ [Sample.word "хорошо"]) 2 (Sample.word "плохо").
Proof.
  apply (token_score_depends_on_window (rt := Basic.runtime) Sample.analyzer).
  intros j Hj.
  destruct j as [|[|[|[|j]]]]; try reflexivity. lia.
Defined.

Section Windows.
Context {rt : Runtime}.

Lemma first_hit_some {A} (f : Token -> option A) (tokens : list Token)
  (js : list nat) (j : nat) :
  j ∈ js -> is_Some (tokens !! j ≫= f) -> is_Some (first_hit f tokens js).
Proof.
  intros Hj Hf. induction js as [|k js IH]; [inversion Hj|]. simpl.
  destruct (tokens !! k ≫= f) as [a|] eqn:Ek; [eauto|].
  apply IH. inversion Hj; subst; [|assumption].
  rewrite Ek in Hf. destruct Hf as [? ?]. discriminate.
Qed.

Lemma first_hit_window {A} (f : Token -> option A) (tokens : list Token)
  (w i j : nat) (a : A) :
  (i - w <= j < i)%nat ->
  tokens !! j ≫= f = Some a ->
  (forall k, (i - w <= k < j)%nat -> tokens !! k ≫= f = None) ->
  first_hit f tokens (window w i) = Some (j, a).
Proof.
  intros Hj Hhit Hbefore. unfold window.
  apply first_hit_seq; [lia | exact Hhit | exact Hbefore].
Qed.

End Windows.

(** X8.  The contrast rule asks only whether some word of the contrast
    set stands among the five tokens before the scored one: if so the
    score is multiplied by 1.3, once, however many there are; if not,
    and in particular at the start of the list, it is left as it
    is. *)
Theorem contrast_rule_any_word_in_window (tokens : list Token) (i : nat)
  (score : float) :
  ((exists j t, (i - 5 <= j < i)%nat /\ tokens !! j = Some t /\
                is_emoji t = false /\ value t ∈ contrast_words) ->
   _apply_contrast_rules_enhanced tokens i score = (score * 1.3)%float) /\
  ((forall j t, (i - 5 <= j < i)%nat -> tokens !! j = Some t ->
                ~ (is_emoji t = false /\ value t ∈ contrast_words)) ->
   _apply_contrast_rules_enhanced tokens i score = score).
Proof.
  unfold _apply_contrast_rules_enhanced, contrast_rule. split.
  - intros (j & t & Hj & Ht & Hw).
    assert (is_Some (first_hit (word_in contrast_words) tokens (window 5 i)))
      as [[k []] ->]; [|reflexivity].
    apply (first_hit_some _ _ _ j); [apply in_window; exact Hj|].
    rewrite Ht. simpl. exists tt. apply word_in_Some. exact Hw.
  - intros Hnone.
    destruct (first_hit _ tokens (window 5 i)) as [[k a]|] eqn:E;
      [|reflexivity].
    exfalso. clear score.
    assert (forall js, (forall j, j ∈ js -> (i - 5 <= j < i)%nat) ->
              first_hit (word_in contrast_words) tokens js = None) as Hn.
    { induction js as [|j js IH]; intros Hjs; [reflexivity|]. simpl.
      destruct (tokens !! j) as [t|] eqn:Et; simpl.
      - rewrite word_in_None.
        + apply IH. intros j' Hj'. apply Hjs. right. exact Hj'.
        + apply (Hnone j t); [apply Hjs; left; reflexivity | exact Et].
      - apply IH. intros j' Hj'. apply Hjs. right. exact Hj'. }
    rewrite Hn in E; [discriminate|]. intros j Hj. apply in_window, Hj.
Qed.

Lemma contrast_rule_any_word_in_window_witness :
  _apply_contrast_rules_enhanced
    [Sample.word "но"; Sample.word "это"; Sample.word "однако";
     Sample.word "хорошо"] 3 2
  = (2 * 1.3)%float /\
  _apply_contrast_rules_enhanced
    [Sample.word "это"; Sample.word "хорошо"] 1 2 = 2%float.
Proof.
  split.
  - apply (proj1 (contrast_rule_any_word_in_window
             [Sample.word "но"; Sample.word "это"; Sample.word "однако";
              Sample.word "хорошо"] 3 2)).
    exists 0%nat, (Sample.word "но").
    split; [lia|]. split; [reflexivity|]. split; [reflexivity|].
    apply elem_of_by_decide. vm_compute. reflexivity.
  - apply (proj2 (contrast_rule_any_word_in_window
             [Sample.word "это"; Sample.word "хорошо"] 1 2)).
    intros j t Hj Ht [_ Hin].
    destruct j as [|j]; [|lia]. injection Ht as <-.
    apply (bool_decide_eq_true_2 _) in Hin. vm_compute in Hin. discriminate.
Defined.

(** X9.  The modifier rule looks at the two tokens before the scored
    one, the farther first: the score is multiplied by the table entry
    of the first of them that is a word of the modifier table. *)
Theorem modifier_uses_first_of_window (tokens : list Token) (i j : nat)
  (t : Token) (factor score : float) :
  (i - 2 <= j < i)%nat ->
  tokens !! j = Some t -> is_emoji t = false ->
  modifiers !! value t = Some factor ->
  (forall k t', (i - 2 <= k < j)%nat -> tokens !! k = Some t' ->
                is_emoji t' = false -> modifiers !! value t' = None) ->
  _apply_modifier_rules_enhanced tokens i score = (score * factor)%float.
Proof.
  intros Hj Ht Hw Hf Hbefore.
  unfold _apply_modifier_rules_enhanced, modifier_rule.
  rewrite (first_hit_window (word_get modifiers) tokens 2 i j factor Hj).
  - reflexivity.
  - rewrite Ht. simpl. unfold word_get. rewrite Hw. exact Hf.
  - intros k Hk. destruct (tokens !! k) as [t'|] eqn:Ek; [|reflexivity].
    simpl. unfold word_get. destruct (is_emoji t') eqn:Ee; [reflexivity|].
    exact (Hbefore k t' Hk Ek Ee).
Qed.

Lemma modifier_uses_first_of_window_witness :
  _apply_modifier_rules_enhanced
    [Sample.word "вроде"; Sample.word "почти"; Sample.word "хорошо"] 2 2
  = (2 * 0.7)%float.
Proof.
  apply (modifier_uses_first_of_window
           [Sample.word "вроде"; Sample.word "почти"; Sample.word "хорошо"]
           2 0 (Sample.word "вроде") 0.7 2).
  - lia.
  - reflexivity.
  - reflexivity.
  - vm_compute. reflexivity.
  - intros k t' Hk. lia.
Defined.

(** ** The loader *)

Section LoaderLines.
Context {rt : Runtime}.

Lemma lstrip_head (s : str) (c : N) :
  head (lstrip s) = Some c -> whitespace c = false.
Proof.
  unfold lstrip. induction s as [|x s IH]; simpl; [discriminate|].
  destruct (whitespace x) eqn:E.
  - destruct (span whitespace s). exact IH.
  - simpl. intros [= <-]. exact E.
Qed.

Lemma lstrip_suffix (s : str) : exists a, s = a ++ lstrip s.
Proof. exists (span whitespace s).1. apply span_eq. Qed.

Lemma last_rev (l : str) : last (rev l) = head l.
Proof. destruct l as [|c r]; [reflexivity|]. simpl. apply last_snoc. Qed.

Lemma head_rev (l : str) : head (rev l) = last l.
Proof.
  destruct l as [|c r] using rev_ind; [reflexivity|].
  rewrite rev_app_distr, last_snoc. reflexivity.
Qed.

Lemma last_suffix (a l : str) : l <> [] -> last (a ++ l) = last l.
Proof.
  destruct l as [|c r] using rev_ind; [contradiction|]. intros _.
  rewrite app_assoc, !last_snoc. reflexivity.
Qed.

Lemma strip_ends (s : str) (c : N) :
  (head (strip s) = Some c -> whitespace c = false) /\
  (last (strip s) = Some c -> whitespace c = false).
Proof.
  unfold strip. set (inner := lstrip s).
  destruct (lstrip_suffix (rev inner)) as [a Ha].
  rewrite head_rev, last_rev. split; [|apply lstrip_head].
  intros Hl. destruct (lstrip (rev inner)) as [|x r] eqn:E; [discriminate|].
  rewrite <- (last_suffix a), <- Ha, last_rev in Hl by discriminate.
  exact (lstrip_head s c Hl).
Qed.

Lemma lstrip_incl (s : str) (P : N -> Prop) :
  Forall P s -> Forall P (lstrip s).
Proof. apply span_snd_Forall. Qed.

Lemma strip_incl (s : str) (P : N -> Prop) :
  Forall P s -> Forall P (strip s).
Proof.
  intros Hs. unfold strip.
  apply Forall_rev, lstrip_incl, Forall_rev, lstrip_incl, Hs.
Qed.

Lemma lstrip_keeps (c : N) (r : str) :
  whitespace c = false -> lstrip (c :: r) = c :: r.
Proof. intros Hc. unfold lstrip. simpl. rewrite Hc. reflexivity. Qed.

Lemma lstrip_snoc (r : str) (c : N) :
  whitespace c = false -> lstrip (r ++ [c]) <> [].
Proof.
  intros Hc. unfold lstrip. induction r as [|x r IH]; simpl.
  - rewrite Hc. discriminate.
  - destruct (whitespace x); [|discriminate].
    destruct (span whitespace (r ++ [c])). exact IH.
Qed.

Lemma strip_nonempty (c : N) (r : str) :
  whitespace c = false -> strip (c :: r) <> [].
Proof.
  intros Hc. unfold strip. rewrite (lstrip_keeps c r Hc). simpl.
  intros E. apply (f_equal (@rev N)) in E. rewrite rev_involutive in E.
  exact (lstrip_snoc (rev r) c Hc E).
Qed.

Lemma split_parts (sep : N) (s : str) :
  Forall (fun part => Forall (fun c => c <> sep) part) (split sep s).
Proof.
  induction s as [|c r IH]; simpl; [repeat constructor|].
  destruct (N.eqb_spec c sep) as [->|Hne].
  - constructor; [constructor | exact IH].
  - destruct (split sep r) as [|p ps]; [repeat constructor; assumption|].
    inversion IH; subst. constructor; [constructor|]; assumption.
Qed.

Lemma split_first (sep c : N) (r : str) :
  c <> sep -> exists p ps, split sep (c :: r) = (c :: p) :: ps.
Proof.
  intros Hne. simpl. destruct (N.eqb_spec c sep); [contradiction|].
  destruct (split sep r) as [|p ps]; eauto.
Qed.

Lemma line_entry_key (prepare : str -> str) (line k : str) (v : float) :
  line_entry prepare line = Some (k, v) -> stored_key k.
Proof.
  unfold line_entry.
  pose proof (split_parts tab (strip line)) as Hparts.
  destruct (strip line) as [|c r] eqn:El.
  { simpl. discriminate. }
  assert (whitespace c = false) as Hc
    by (apply (proj1 (strip_ends line c)); rewrite El; reflexivity).
  assert (c <> tab) as Hct by (intros ->; vm_compute in Hc; discriminate).
  destruct (split_first tab c r Hct) as (p & ps & Es). rewrite Es in *.
  destruct ps as [|field rest]; [discriminate|]. simpl.
  destruct (float_of_str (prepare field)); [|discriminate].
  intros [= <- <-]. inversion Hparts as [|? ? Hword _]; subst.
  split; [apply strip_nonempty, Hc|]. split.
  - apply contains_false. apply strip_incl. exact Hword.
  - split; intros x; apply strip_ends.
Qed.

Lemma read_lines_keys (prepare : str -> str) (lines : list str)
  (lexicon : gmap str float) (k : str) :
  is_Some (fold_left (read_line prepare) lines lexicon !! k) ->
  is_Some (lexicon !! k) \/ stored_key k.
Proof.
  revert lexicon. induction lines as [|line lines IH]; intros lexicon;
    simpl; [auto|].
  intros Hk. destruct (IH _ Hk) as [Hin|Hgood]; [|auto].
  rewrite read_line_entry in Hin.
  destruct (line_entry prepare line) as [[k' v]|] eqn:E; [|auto].
  destruct (decide (k' = k)) as [->|Hne].
  - right. exact (line_entry_key _ _ _ _ E).
  - rewrite lookup_insert_ne in Hin by exact Hne. auto.
Qed.

Lemma read_lines_keep (prepare : str -> str) (lines : list str)
  (lexicon : gmap str float) (k : str) :
  is_Some (lexicon !! k) ->
  is_Some (fold_left (read_line prepare) lines lexicon !! k).
Proof.
  revert lexicon. induction lines as [|line lines IH]; intros lexicon;
    simpl; [auto|].
  intros Hk. apply IH. rewrite read_line_entry.
  destruct (line_entry prepare line) as [[k' v]|]; [|exact Hk].
  destruct (decide (k' = k)) as [->|Hne].
  - rewrite lookup_insert_eq. eauto.
  - rewrite lookup_insert_ne by exact Hne. exact Hk.
Qed.

End LoaderLines.

(** X10.  Loading only adds to the lexicon or replaces scores: a key
    that was there stays, and every key that comes in is a stored key,
    that is, not empty, free of tabulators and without white space at
    its ends.  This holds for every file, read to its end or not. *)
Theorem loader_adds_stored_keys {rt : Runtime} (file : lexicon_file)
  (lexicon : gmap str float) (k : str) :
  (is_Some (lexicon !! k) ->
   is_Some (_load_tonal_lexicon file lexicon !! k)) /\
  (is_Some (_load_tonal_lexicon file lexicon !! k) ->
   is_Some (lexicon !! k) \/ stored_key k).
Proof.
  unfold _load_tonal_lexicon, attempt.
  destruct file as [| |lines [|]]; simpl; try tauto; split.
  - intros Hk. apply read_lines_keep, read_lines_keep, Hk.
  - intros Hk.
    destruct (read_lines_keys _ _ _ _ Hk) as [Hk1|Hgood]; [|auto].
    exact (read_lines_keys _ _ _ _ Hk1).
  - apply read_lines_keep.
  - apply read_lines_keys.
Qed.

Lemma loader_adds_stored_keys_witness :
  stored_key (u "хорошо").
Proof.
  destruct (proj2 (loader_adds_stored_keys (rt := Basic.runtime)
                     Sample.file ∅ (u "хорошо"))) as [Hin|Hk].
  - apply (bool_decide_eq_true_1 _). vm_compute. reflexivity.
  - rewrite lookup_empty in Hin. destruct Hin as [x Hx]. discriminate.
  - exact Hk.
Defined.

Section LoaderFormat.
Context {rt : Runtime}.

Lemma split_at (sep : N) (w rest : str) :
  Forall (fun c => c <> sep) w ->
  split sep (w ++ sep :: rest) = w :: split sep rest.
Proof.
  induction 1 as [|c r Hc _ IH]; simpl.
  - rewrite N.eqb_refl. reflexivity.
  - destruct (N.eqb_spec c sep); [contradiction|]. rewrite IH. reflexivity.
Qed.

Lemma read_lines_skip (prepare : str -> str) (before after : list str)
  (line : str) (lexicon : gmap str float) :
  line_entry prepare line = None ->
  fold_left (read_line prepare) (before ++ line :: after) lexicon
  = fold_left (read_line prepare) (before ++ after) lexicon.
Proof.
  intros Hn. rewrite !fold_left_app. simpl.
  rewrite (read_line_entry prepare _ line), Hn. reflexivity.
Qed.

Lemma solid_not_tab (s : str) : solid s -> Forall (fun c => c <> tab) s.
Proof.
  intros Hs. eapply Forall_impl; [exact Hs|].
  intros c Hc ->. vm_compute in Hc. discriminate.
Qed.

Lemma lstrip_solid (s : str) : solid s -> lstrip s = s.
Proof.
  intros Hs. destruct Hs as [|c r Hc _]; [reflexivity|].
  apply lstrip_keeps, Hc.
Qed.

Lemma strip_solid (s : str) : solid s -> strip s = s.
Proof.
  intros Hs. unfold strip. rewrite (lstrip_solid s Hs).
  rewrite lstrip_solid by (apply Forall_rev; exact Hs).
  apply rev_involutive.
Qed.

Lemma replace_solid (s : str) : solid s -> solid (replace comma dot s).
Proof.
  intros Hs. unfold replace. apply Forall_map.
  eapply Forall_impl; [exact Hs|]. intros c Hc. simpl.
  destruct (c =? comma)%N; [reflexivity | exact Hc].
Qed.

Lemma lstrip_app_ws (a s : str) :
  Forall (fun c => whitespace c = true) a -> lstrip (a ++ s) = lstrip s.
Proof.
  unfold lstrip. induction 1 as [|c a Hc _ IH]; [reflexivity|].
  simpl. rewrite Hc. destruct (span whitespace (a ++ s)). exact IH.
Qed.

Lemma lstrip_head_keeps (s : str) :
  (forall c, head s = Some c -> whitespace c = false) -> lstrip s = s.
Proof.
  destruct s as [|c r]; [reflexivity|]. intros Hc.
  apply lstrip_keeps, Hc. reflexivity.
Qed.

(** [strip] removes the white space around a text that begins and ends
    with other characters. *)
Lemma strip_trim (a body b : str) :
  Forall (fun c => whitespace c = true) a ->
  Forall (fun c => whitespace c = true) b ->
  (forall c, head body = Some c -> whitespace c = false) ->
  (forall c, last body = Some c -> whitespace c = false) ->
  strip (a ++ body ++ b) = body.
Proof.
  intros Ha Hb Hhead Hlast. unfold strip.
  rewrite (lstrip_app_ws a _ Ha).
  destruct body as [|c r].
  - simpl. rewrite <- (app_nil_r b), lstrip_app_ws by exact Hb.
    reflexivity.
  - rewrite <- app_comm_cons, lstrip_keeps by (apply Hhead; reflexivity).
    rewrite app_comm_cons, rev_app_distr.
    rewrite lstrip_app_ws by (apply Forall_rev; exact Hb).
    rewrite lstrip_head_keeps; [apply rev_involutive|].
    intros x. rewrite head_rev. apply Hlast.
Qed.

(** A line [word TAB field LF] without white space in [word] and
    [field]. *)
Lemma strip_entry_line (w f : str) :
  w <> [] -> f <> [] -> solid w -> solid f ->
  strip (w ++ [tab] ++ f ++ [10%N]) = w ++ tab :: f.
Proof.
  intros Hw Hf Sw Sf.
  replace (w ++ [tab] ++ f ++ [10%N]) with ([] ++ (w ++ tab :: f) ++ [10%N])
    by (simpl; rewrite <- app_assoc; reflexivity).
  apply strip_trim; [constructor | repeat constructor | |].
  - destruct w as [|c w]; [contradiction|]. inversion Sw; subst.
    intros x [= <-]. assumption.
  - destruct f as [|d f] using rev_ind; [contradiction|].
    apply Forall_app in Sf as [_ Sd]. inversion Sd; subst.
    change (w ++ tab :: f ++ [d]) with (w ++ (tab :: f) ++ [d]).
    rewrite app_assoc, last_snoc. intros x [= <-]. assumption.
Qed.

Lemma entry_line (w f : str) :
  w <> [] -> f <> [] -> solid w -> solid f ->
  line_entry first_prepare (w ++ [tab] ++ f ++ [10%N])
  = score ← float_of_str (replace comma dot f); Some (w, score).
Proof.
  intros Hw Hf Sw Sf. unfold line_entry, first_prepare.
  rewrite (strip_entry_line w f Hw Hf Sw Sf).
  rewrite (split_at tab w f (solid_not_tab w Sw)).
  rewrite split_whole
    by (apply contains_false, solid_not_tab; exact Sf).
  destruct w; [contradiction|]. simpl nonempty. cbv iota.
  rewrite (strip_solid _ (replace_solid f Sf)), (strip_solid _ Sw).
  reflexivity.
Qed.

End LoaderFormat.

(** X11.  In a file that is read to its end, a line that is blank, has
    no tabulator, or has a score field that [float] refuses is passed
    over without any effect on the load: the lexicon is the one the
    file without that line gives. *)
Theorem loader_passes_over_bad_lines {rt : Runtime}
  (before after : list str) (line : str) (lexicon : gmap str float) :
  skipped line ->
  _load_tonal_lexicon (Lines (before ++ line :: after) false) lexicon
  = _load_tonal_lexicon (Lines (before ++ after) false) lexicon.
Proof.
  intros Hline.
  pose proof (read_lines_skip _ before after line lexicon
                (skipped_no_entry line Hline)) as E1.
  unfold _load_tonal_lexicon, attempt. unfold first_prepare in E1.
  rewrite E1. reflexivity.
Qed.

Lemma loader_passes_over_bad_lines_witness :
  _load_tonal_lexicon (rt := Basic.runtime)
    (Lines ([Sample.entry "хорошо" "2.0"] ++ u "no tabulator here"
              :: [Sample.entry "плохо" "-2.0"]) false) ∅
  = _load_tonal_lexicon (rt := Basic.runtime)
      (Lines ([Sample.entry "хорошо" "2.0"]
                ++ [Sample.entry "плохо" "-2.0"]) false) ∅.
Proof.
  apply (loader_passes_over_bad_lines (rt := Basic.runtime)).
  right. left. vm_compute. reflexivity.
Defined.

(** X12.  A line [word TAB field] ending the file, with no white space
    inside [word] and [field], puts [word] into the lexicon with the
    score [float] reads from [field] after its commas were turned into
    points, replacing any earlier score of [word], and leaves the other
    keys as the lines before it made them. *)
Theorem loader_reads_entry_line {rt : Runtime}
  (lines : list str) (w f : str) (v : float) (lexicon : gmap str float) :
  w <> [] -> f <> [] -> solid w -> solid f ->
  float_of_str (replace comma dot f) = Some v ->
  let loaded :=
    _load_tonal_lexicon
      (Lines (lines ++ [w ++ [tab] ++ f ++ [10%N]]) false) lexicon in
  loaded !! w = Some v /\
  forall k, k <> w ->
    loaded !! k = _load_tonal_lexicon (Lines lines false) lexicon !! k.
Proof.
  intros Hw Hf Sw Sf Hv loaded. unfold loaded, _load_tonal_lexicon, attempt.
  rewrite fold_left_app. simpl.
  pose proof (read_line_entry first_prepare
                (fold_left (read_line first_prepare) lines lexicon)
                (w ++ tab :: f ++ [10%N])) as E.
  unfold first_prepare at 1 2 in E. rewrite E.
  change (w ++ tab :: f ++ [10%N]) with (w ++ [tab] ++ f ++ [10%N]).
  rewrite (entry_line w f Hw Hf Sw Sf), Hv. simpl. split.
  - apply lookup_insert_eq.
  - intros k Hk. apply lookup_insert_ne. congruence.
Qed.

Lemma loader_reads_entry_line_witness :
  let loaded :=
    _load_tonal_lexicon (rt := Basic.runtime)
      (Lines ([Sample.entry "хорошо" "2.0"]
              ++ [u "хорошо" ++ [tab] ++ u "2,5" ++ [10%N]]) false) ∅ in
  loaded !! u "хорошо" = Some 2.5%float /\
  forall k, k <> u "хорошо" ->
    loaded !! k
    = _load_tonal_lexicon (rt := Basic.runtime)
        (Lines [Sample.entry "хорошо" "2.0"] false) ∅ !! k.
Proof.
  apply (loader_reads_entry_line (rt := Basic.runtime)
           [Sample.entry "хорошо" "2.0"] (u "хорошо") (u "2,5") 2.5 ∅).
  - discriminate.
  - discriminate.
  - unfold solid. repeat (constructor; [vm_compute; reflexivity|]).
    constructor.
  - unfold solid. repeat (constructor; [vm_compute; reflexivity|]).
    constructor.
  - vm_compute. reflexivity.
Defined.

(** ** stem_processor.py *)

Section RussianText.
Import MyStemProcessor.

Lemma at_end_true (rest : str) :
  at_end rest = true -> rest = [] \/ rest = [10%N].
Proof.
  destruct rest as [|x [|y r]]; simpl; auto.
  - destruct x as [|p]; [discriminate|].
    do 4 (destruct p as [p|p|]; try discriminate). auto.
  - destruct x as [|p]; [discriminate|].
    do 4 (destruct p as [p|p|]; try discriminate).
Qed.

Lemma span_all (p : N -> bool) (l : str) :
  forallb p l = true -> span p l = (l, []).
Proof.
  induction l as [|c r IH]; simpl; [reflexivity|].
  intros [Hc Hr]%andb_true_iff. rewrite Hc, (IH Hr). reflexivity.
Qed.

Lemma span_rest (p : N -> bool) (l : str) :
  forallb p l = false ->
  exists x r, (span p l).2 = x :: r /\ p x = false.
Proof.
  induction l as [|c r IH]; simpl; [discriminate|].
  destruct (p c) eqn:Ec; simpl.
  - intros Hr. destruct (IH Hr) as (x & r' & Hx & Hp).
    destruct (span p r). simpl in *. eauto.
  - intros _. eauto.
Qed.

Lemma give_back_fails (n : nat) (text : str) (x : N) (r : str) :
  (n <= length (span russian_class text).1)%nat ->
  (span russian_class text).2 = x :: r -> russian_class x = false ->
  give_back n text = false.
Proof.
  intros Hn Hr Hx. induction n as [|n IH]; [reflexivity|]. simpl.
  rewrite IH by lia. rewrite orb_false_r.
  destruct (at_end (drop (S n) text)) eqn:E; [|reflexivity]. exfalso.
  rewrite (span_eq russian_class text), Hr in E.
  rewrite drop_app_le in E by exact Hn.
  destruct (at_end_true _ E) as [E0|E1].
  - apply app_eq_nil in E0 as [_ ?]. discriminate.
  - destruct (drop (S n) (span russian_class text).1) as [|y l].
    + injection E1 as -> _. vm_compute in Hx. discriminate.
    + injection E1 as _ E1. apply app_eq_nil in E1 as [_ ?]. discriminate.
Qed.

Lemma valid_iff_all_in_class (text : str) :
  is_valid_russian_text text
  = nonempty text && forallb russian_class text.
Proof.
  unfold is_valid_russian_text.
  destruct (forallb russian_class text) eqn:E.
  - rewrite (span_all _ _ E). destruct text as [|c r]; [reflexivity|].
    simpl. rewrite drop_all. reflexivity.
  - rewrite andb_false_r. destruct (span_rest _ _ E) as (x & r & Hr & Hx).
    exact (give_back_fails _ text x r (le_n _) Hr Hx).
Qed.

End RussianText.

(** X13.  [is_valid_russian_text] accepts exactly the non-empty texts
    made of Russian letters, white space and hyphens; the backtracking
    of the pattern and the line feed [$] tolerates change nothing.  A
    text of nothing but blanks or hyphens is accepted too. *)
Theorem valid_russian_text_characterized (text : str) :
  MyStemProcessor.is_valid_russian_text text = true <->
  text <> [] /\
  Forall (fun c => MyStemProcessor.russian_class c = true) text.
Proof.
  rewrite valid_iff_all_in_class, andb_true_iff, forallb_forall,
    Forall_forall.
  split; intros [Hne Hall]; split.
  - intros ->. discriminate.
  - intros c Hc. apply Hall, list_elem_of_In, Hc.
  - destruct text; [contradiction|reflexivity].
  - intros c Hc. apply Hall, list_elem_of_In, Hc.
Qed.

Lemma valid_russian_text_characterized_witness :
  u "ёлка - это" <> [] /\
  Forall (fun c => MyStemProcessor.russian_class c = true) (u "ёлка - это").
Proof.
  apply (proj1 (valid_russian_text_characterized (u "ёлка - это"))).
  vm_compute. reflexivity.
Defined.

Section Repair.
Import MyStemProcessor.

Lemma try_encodings_result (text : str) (encodings : list encoding) :
  try_encodings text encodings = text \/
  is_valid_russian_text (try_encodings text encodings) = true.
Proof.
  induction encodings as [|e es IH]; simpl; [auto|].
  destruct (encode_latin1 text ≫= decode e) as [decoded|]; [|exact IH].
  destruct (is_valid_russian_text decoded) eqn:E; [auto | exact IH].
Qed.

Lemma fix_result (text : str) :
  fix_my_stem_encoding text = text \/
  is_valid_russian_text (fix_my_stem_encoding text) = true.
Proof.
  unfold fix_my_stem_encoding. destruct (nonempty text); [|auto].
  destruct (is_valid_russian_text text); [auto|].
  apply try_encodings_result.
Qed.

Lemma fix_valid (text : str) :
  is_valid_russian_text text = true -> fix_my_stem_encoding text = text.
Proof.
  intros Hv. unfold fix_my_stem_encoding. rewrite Hv.
  destruct (nonempty text); reflexivity.
Qed.

Lemma try_encodings_not_latin1 (text : str) (encodings : list encoding) :
  encode_latin1 text = None -> try_encodings text encodings = text.
Proof.
  intros Hn. induction encodings as [|e es IH]; [reflexivity|].
  simpl. rewrite Hn. exact IH.
Qed.

Lemma fix_first_attempt (text decoded : str) :
  forallb (fun c => (c <? 256)%N) text = true ->
  is_valid_russian_text text = false ->
  decode windows_1251 text = Some decoded ->
  is_valid_russian_text decoded = true ->
  fix_my_stem_encoding text = decoded.
Proof.
  intros Hl Hi Hd Hv. unfold fix_my_stem_encoding. rewrite Hi.
  destruct text as [|c r].
  - injection Hd as <-. rewrite valid_iff_all_in_class in Hv. discriminate.
  - cbn [nonempty try_encodings]. unfold encode_latin1. rewrite Hl.
    cbn [mbind option_bind]. rewrite Hd, Hv. reflexivity.
Qed.

End Repair.

(** X14.  [fix_my_stem_encoding] returns its argument or a valid
    Russian text, so a second repair changes nothing; a valid text and a
    text with a character outside ISO-8859-1 that is not valid, such as
    Russian mixed with digits, come back as they are. *)
Theorem repair_is_idempotent (text : str) :
  let fixed := MyStemProcessor.fix_my_stem_encoding text in
  (fixed = text \/ MyStemProcessor.is_valid_russian_text fixed = true) /\
  MyStemProcessor.fix_my_stem_encoding fixed = fixed /\
  (MyStemProcessor.is_valid_russian_text text = true -> fixed = text) /\
  (MyStemProcessor.is_valid_russian_text text = false ->
   (exists c, c ∈ text /\ (256 <= c)%N) -> fixed = text).
Proof.
  intros fixed. split; [apply fix_result|]. split; [|split].
  - destruct (fix_result text) as [E|Hv].
    + fold fixed in E. rewrite E. exact E.
    + apply fix_valid, Hv.
  - apply fix_valid.
  - intros Hi (c & Hc & Hbig). unfold fixed.
    unfold MyStemProcessor.fix_my_stem_encoding. rewrite Hi.
    destruct (nonempty text); [|reflexivity].
    apply try_encodings_not_latin1.
    unfold MyStemProcessor.encode_latin1.
    destruct (forallb _ text) eqn:E; [|reflexivity].
    rewrite forallb_forall in E.
    specialize (E c (proj1 (list_elem_of_In _ _) Hc)).
    apply N.ltb_lt in E. lia.
Qed.

Lemma repair_is_idempotent_witness :
  MyStemProcessor.fix_my_stem_encoding (u "привет2") = u "привет2".
Proof.
  apply (proj2 (proj2 (proj2 (repair_is_idempotent (u "привет2"))))).
  - vm_compute. reflexivity.
  - exists 1087%N. split; [|lia].
    apply (list_elem_of_lookup_2 _ 0%nat). vm_compute. reflexivity.
Defined.

Section Mojibake.
Import MyStemProcessor.

Lemma encode_char_high (e : encoding) (c b : N) :
  encode_char e c = Some b ->
  decode_byte e b = Some c /\ (b <? 256)%N = true /\
  ((c <? 128)%N = false -> b ∈ high_bytes).
Proof.
  unfold encode_char. destruct (c <? 128)%N eqn:Ec.
  - intros [= <-]. unfold decode_byte. rewrite Ec.
    repeat split; [|discriminate]. apply N.ltb_lt in Ec. apply N.ltb_lt. lia.
  - intros Hf. apply find_some in Hf as [Hin Hb].
    apply bool_decide_eq_true_1 in Hb. split; [exact Hb|].
    assert (b ∈ high_bytes) as Hh by (apply list_elem_of_In; exact Hin).
    split; [|auto]. unfold high_bytes in Hh.
    apply list_elem_of_fmap in Hh as (n & -> & Hn).
    apply elem_of_seq in Hn. apply N.ltb_lt. lia.
Qed.

Lemma encode_decode (e : encoding) (w bs : str) :
  encode e w = Some bs -> decode e bs = Some w.
Proof.
  unfold encode, decode. rewrite !mapM_Some. intros H.
  induction H as [|c b w bs Hc _ IH]; constructor; [|exact IH].
  apply (encode_char_high e c b Hc).
Qed.

Lemma encode_latin1_range (e : encoding) (w bs : str) :
  encode e w = Some bs -> forallb (fun c => (c <? 256)%N) bs = true.
Proof.
  unfold encode. rewrite mapM_Some. intros H.
  induction H as [|c b w bs Hc _ IH]; [reflexivity|]. simpl.
  rewrite IH, andb_true_r. apply (encode_char_high e c b Hc).
Qed.

Lemma letter_not_ascii (c : N) :
  russian_letter c = true -> (c <? 128)%N = false.
Proof.
  unfold russian_letter, between. intros H.
  destruct (N.ltb_spec c 128); [|reflexivity]. split_tests.
Qed.

Lemma letter_in_class (c : N) :
  russian_letter c = true -> russian_class c = true.
Proof.
  unfold russian_letter, russian_class, between. intros H.
  split_tests; reflexivity.
Qed.

Lemma Forall_by_test (f : N -> bool) (l : str) :
  forallb f l = true -> Forall (fun x => f x = true) l.
Proof.
  intros H. apply Forall_forall. intros x Hx.
  rewrite forallb_forall in H. apply H, list_elem_of_In, Hx.
Qed.

Lemma letter_bytes_1251 (b : N) :
  b ∈ high_bytes -> letter_byte_1251 b = true.
Proof.
  revert b. apply Forall_forall, Forall_by_test. vm_compute. reflexivity.
Qed.

Lemma letter_bytes_koi8 (b : N) :
  b ∈ high_bytes -> letter_byte_koi8 b = true.
Proof.
  revert b. apply Forall_forall, Forall_by_test. vm_compute. reflexivity.
Qed.

Lemma letters_valid (w : str) :
  w <> [] -> Forall (fun c => russian_letter c = true) w ->
  is_valid_russian_text w = true.
Proof.
  intros Hne Hw. rewrite valid_iff_all_in_class.
  destruct w; [contradiction|]. simpl nonempty.
  apply forallb_forall. rewrite Forall_forall in Hw.
  intros c Hc. apply letter_in_class, Hw, list_elem_of_In, Hc.
Qed.

Lemma head_outside_invalid (b : N) (bs : str) :
  russian_class b = false -> is_valid_russian_text (b :: bs) = false.
Proof.
  intros Hb. rewrite valid_iff_all_in_class. simpl. rewrite Hb. reflexivity.
Qed.

End Mojibake.

(** X15.  The repair does what it is for: a non-empty word of Russian
    letters that was written in windows-1251 and read as ISO-8859-1 is
    restored, in either case of the letters and with "ё". *)
Theorem repair_restores_windows_1251 (w bs : str) :
  w <> [] -> Forall (fun c => russian_letter c = true) w ->
  encode MyStemProcessor.windows_1251 w = Some bs ->
  MyStemProcessor.fix_my_stem_encoding bs = w.
Proof.
  intros Hne Hw He.
  apply fix_first_attempt.
  - exact (encode_latin1_range _ _ _ He).
  - destruct w as [|c w]; [contradiction|].
    unfold encode in He. apply mapM_Some in He.
    inversion He as [|? b ? bs' Hc _]; subst.
    inversion Hw as [|? ? Hl _]; subst.
    apply head_outside_invalid.
    destruct (encode_char_high _ _ _ Hc) as (Hd & _ & Hh).
    pose proof (letter_bytes_1251 b (Hh (letter_not_ascii c Hl))) as Hb.
    unfold letter_byte_1251 in Hb. rewrite Hd, Hl in Hb.
    apply negb_true_iff, Hb.
  - exact (encode_decode _ _ _ He).
  - exact (letters_valid w Hne Hw).
Qed.

Lemma repair_restores_windows_1251_witness :
  MyStemProcessor.fix_my_stem_encoding
    [207; 240; 232; 226; 229; 242]%N = u "Привет".
Proof.
  apply (repair_restores_windows_1251 (u "Привет")).
  - discriminate.
  - apply Forall_by_test. vm_compute. reflexivity.
  - vm_compute. reflexivity.
Defined.

(** X16.  The encodings are tried in a fixed order and the first that
    gives valid Russian text wins.  For a non-empty word of Russian
    letters other than "ё" that was written in KOI8-R, that is already
    the windows-1251 reading of its bytes: the repair returns a word of
    Russian letters that differs from the one written, and the KOI8-R
    reading is never tried. *)
Theorem repair_misreads_koi8_r (w bs : str) :
  w <> [] -> Forall (fun c => between 0x410 0x44F c = true) w ->
  encode MyStemProcessor.koi8_r w = Some bs ->
  exists w',
    MyStemProcessor.decode MyStemProcessor.windows_1251 bs = Some w' /\
    MyStemProcessor.fix_my_stem_encoding bs = w' /\ w' <> w.
Proof.
  intros Hne Hw He.
  assert (Forall2 (fun c b =>
            MyStemProcessor.russian_class b = false /\
            exists c', MyStemProcessor.decode_byte
                         MyStemProcessor.windows_1251 b = Some c' /\
                       russian_letter c' = true /\ c' <> c) w bs) as Hall.
  { unfold encode in He. apply mapM_Some in He. clear Hne.
    induction He as [|c b w bs Hc _ IH]; [constructor|].
    inversion Hw as [|? ? Hl Hw']; subst.
    constructor; [|exact (IH Hw')].
    destruct (encode_char_high _ _ _ Hc) as (Hd & _ & Hh).
    assert ((c <? 128)%N = false) as Hc128.
    { unfold between in Hl. destruct (N.ltb_spec c 128); [|reflexivity].
      split_tests. }
    pose proof (letter_bytes_koi8 b (Hh Hc128)) as Hb.
    unfold letter_byte_koi8 in Hb. rewrite Hd, Hl in Hb.
    apply andb_true_iff in Hb as [Hb1 Hb2]. split; [apply negb_true_iff, Hb1|].
    destruct (MyStemProcessor.decode_byte MyStemProcessor.windows_1251 b)
      as [c'|]; [|discriminate].
    apply andb_true_iff in Hb2 as [Hb2 Hb3]. exists c'.
    repeat split; [exact Hb2|]. apply negb_true_iff, N.eqb_neq in Hb3.
    exact Hb3. }
  assert (exists w', Forall2 (fun b c' =>
            MyStemProcessor.decode_byte MyStemProcessor.windows_1251 b
            = Some c') bs w' /\
            Forall (fun c => russian_letter c = true) w' /\
            (w <> [] -> w' <> w)) as (w' & Hd & Hl & Hdiff).
  { clear He Hne Hw.
    induction Hall as [|c b w bs (_ & c' & Hc & Hl' & Hn) _ IH].
    - exists []. repeat constructor. intros H; contradiction.
    - destruct IH as (w' & Hd & Hl & _). exists (c' :: w').
      repeat split; [constructor; assumption | constructor; assumption |].
      intros _ [= E _]. contradiction. }
  exists w'. split; [apply mapM_Some, Hd|]. split; [|exact (Hdiff Hne)].
  apply fix_first_attempt.
  - exact (encode_latin1_range _ _ _ He).
  - destruct Hall as [|c b w bs [Hb _] _]; [contradiction|].
    apply head_outside_invalid, Hb.
  - apply mapM_Some, Hd.
  - apply letters_valid; [|exact Hl].
    destruct Hall; [contradiction|]. inversion Hd. discriminate.
Qed.

Lemma repair_misreads_koi8_r_witness :
  exists w',
    MyStemProcessor.decode MyStemProcessor.windows_1251
      [208; 210; 201; 215; 197; 212]%N = Some w' /\
    MyStemProcessor.fix_my_stem_encoding [208; 210; 201; 215; 197; 212]%N
    = w' /\ w' <> u "привет".
Proof.
  apply (repair_misreads_koi8_r (u "привет")).
  - discriminate.
  - apply Forall_by_test. vm_compute. reflexivity.
  - vm_compute. reflexivity.
Defined.

Section PartOfSpeech.
Import MyStemProcessor.

Lemma pos_map_values (k v : str) :
  pos_map !! k = Some v -> v ∈ part_of_speech_tags.
Proof.
  unfold pos_map. intros H. apply elem_of_list_to_map_2 in H.
  apply list_elem_of_In in H. apply list_elem_of_In.
  unfold part_of_speech_tags. simpl in H.
  repeat (destruct H as [H|H];
          [injection H as _ <-; simpl;
           repeat (first [left; reflexivity | right]) |]).
  contradiction.
Qed.

Lemma unknown_is_tag : u "UNKN" ∈ part_of_speech_tags.
Proof. apply (list_elem_of_lookup_2 _ 9%nat). reflexivity. Qed.

Lemma extract_of_first (first_part : str) (rest : list str) :
  default (u "UNKN") (pos_map !! first_part) ∈ part_of_speech_tags.
Proof.
  destruct (pos_map !! first_part) as [v|] eqn:E; simpl.
  - exact (pos_map_values _ _ E).
  - exact unknown_is_tag.
Qed.

End PartOfSpeech.

(** X17.  [extract_part_of_speech] always answers one of its ten tags,
    and it reads only the text before the first comma: what follows the
    comma never changes the answer, and neither an empty description
    nor a tag it does not know is an error, both give "UNKN". *)
Theorem part_of_speech_reads_first_field (tag rest : str) :
  Forall (fun c => c <> comma) tag ->
  MyStemProcessor.extract_part_of_speech (tag ++ comma :: rest)
  = MyStemProcessor.extract_part_of_speech tag /\
  MyStemProcessor.extract_part_of_speech tag ∈ part_of_speech_tags /\
  MyStemProcessor.extract_part_of_speech [] = u "UNKN" /\
  (MyStemProcessor.pos_map !! tag = None ->
   MyStemProcessor.extract_part_of_speech tag = u "UNKN").
Proof.
  intros Htag.
  assert (MyStemProcessor.extract_part_of_speech tag
          = default (u "UNKN") (MyStemProcessor.pos_map !! tag)) as Etag.
  { unfold MyStemProcessor.extract_part_of_speech.
    destruct tag as [|c tag]; [vm_compute; reflexivity|].
    simpl nonempty. cbv iota.
    rewrite (split_whole comma (c :: tag)); [reflexivity|].
    apply contains_false. exact Htag. }
  split; [|split; [|split]].
  - rewrite Etag. unfold MyStemProcessor.extract_part_of_speech.
    rewrite (split_at comma tag rest Htag).
    destruct tag; reflexivity.
  - rewrite Etag. apply (extract_of_first tag []).
  - reflexivity.
  - intros Hnone. rewrite Etag, Hnone. reflexivity.
Qed.

Lemma part_of_speech_reads_first_field_witness :
  MyStemProcessor.extract_part_of_speech (u "S" ++ comma :: u "жен,неод=им,ед")
  = MyStemProcessor.extract_part_of_speech (u "S").
Proof.
  apply (part_of_speech_reads_first_field (u "S") (u "жен,неод=им,ед")).
  repeat constructor. discriminate.
Defined.

(** ** The console program *)

Section ConsoleProgram.
Import Program.
Context {rt : Runtime} {fs : FileSystem}.
Variable normalize : list Token -> list Token.
Variable analyzer : SentimentAnalyzer.

Lemma strip_trimmed (s : str) : strip s <> [] -> trimmed (strip s).
Proof.
  intros H. split; [exact H|].
  split; intros c Hc;
    [exact (proj1 (strip_ends s c) Hc) | exact (proj2 (strip_ends s c) Hc)].
Qed.

Lemma nonempty_true (s : str) : nonempty s = true <-> s <> [].
Proof. destruct s; simpl; split; congruence. Qed.

Lemma join_trimmed (parts : list str) :
  Forall trimmed parts -> parts <> [] -> trimmed (join parts).
Proof.
  induction 1 as [|p rest Hp Hrest IH]; [congruence|]. intros _.
  destruct rest as [|q rest']; [exact Hp|].
  change (join (p :: q :: rest')) with (p ++ space :: join (q :: rest')).
  assert (q :: rest' <> []) as Hne by discriminate.
  destruct (IH Hne) as (Hj0 & _ & Hj2). destruct Hp as (Hp0 & Hp1 & _).
  split; [|split].
  - destruct p; [congruence|discriminate].
  - intros c Hc. apply Hp1. destruct p; [congruence|exact Hc].
  - intros c Hc. apply Hj2. rewrite last_app, last_cons in Hc.
    destruct (last (join (q :: rest'))) eqn:E; [exact Hc|].
    apply last_None in E. congruence.
Qed.

Lemma stripped_lines_trimmed (lines : list str) :
  Forall trimmed
    (map strip (filter (fun line => nonempty (strip line)) lines)).
Proof.
  apply List.Forall_map. apply Forall_forall. intros line Hin.
  apply list_elem_of_filter in Hin. destruct Hin as [Hne _].
  apply strip_trimmed. destruct (strip line); [exfalso; exact Hne|discriminate].
Qed.

Lemma blank_lines_join (lines : list str) :
  Forall (fun line => strip line = []) lines ->
  join (map strip (filter (fun line => nonempty (strip line)) lines)) = [].
Proof.
  intros Hall.
  assert (filter (fun line => nonempty (strip line)) lines = []) as ->;
    [|reflexivity].
  induction Hall as [|line lines Hline _ IH]; [reflexivity|].
  rewrite filter_cons_False; [exact IH|]. rewrite Hline. intros Hf. exact Hf.
Qed.

(** Reading the file takes nothing from the console and raises nothing. *)
Lemma read_with_cases (file_path : str) (encs : list file_encoding)
  (stdin : list event) :
  exists r out, read_with file_path encs stdin = (inl r, stdin, out) /\
    match r with Some text => trimmed text | None => True end.
Proof.
  induction encs as [|e encs IH]; simpl.
  - eexists _, _. split; [reflexivity|exact I].
  - destruct (readlines file_path e) as [| |lines].
    + exact IH.
    + eexists _, _. split; [reflexivity|exact I].
    + destruct (nonempty (join _)) eqn:E.
      * eexists _, _. split; [reflexivity|].
        apply nonempty_true in E.
        apply join_trimmed; [apply stripped_lines_trimmed|].
        intros H0. apply E. rewrite H0. reflexivity.
      * exact IH.
Qed.

Lemma read_with_nothing (file_path : str) (encs : list file_encoding)
  (stdin : list event) :
  Forall (fun e => nothing_read (readlines file_path e)) encs ->
  read_with file_path encs stdin = (inl None, stdin, [NoEncodingFits]).
Proof.
  induction 1 as [|e encs He _ IH]; [reflexivity|]. simpl.
  destruct He as [-> | (lines & -> & Hblank)]; [exact IH|].
  rewrite (blank_lines_join lines Hblank). exact IH.
Qed.

(** What asking for the text can come to: a trimmed text, no text, the
    end of the input, or an interrupt; it reads from the front of the
    input. *)
Lemma text_for_analysis_cases (choice : str) (stdin : list event) :
  exists r rest out used,
    _get_text_for_analysis choice stdin = (r, rest, out) /\
    stdin = used ++ rest /\
    match r with
    | inl (Some text) => trimmed text
    | inl None => True
    | inr e =>
      e = EOFError \/
      (e = KeyboardInterrupt /\ exists before, stdin = before ++ Interrupt :: rest)
    end.
Proof.
  unfold _get_text_for_analysis.
  case_bool_decide; [|case_bool_decide].
  - destruct stdin as [|[line|] rest].
    + exists (inr EOFError), [], [AskPath], []. repeat split. left. reflexivity.
    + unfold _get_text_from_file, mbind, console_bind, bind, print, input.
      destruct (nonempty (strip line)) eqn:Ene.
      * destruct (path_exists (strip line)).
        -- destruct (read_with_cases (strip line) encodings rest)
             as (r & out & E & Hr).
           unfold encodings in E. rewrite E.
           exists (inl r), rest, ([AskPath] ++ [] ++ out), [Line line].
           repeat split. exact Hr.
        -- eexists (inl None), rest, _, [Line line]. repeat split.
      * eexists (inl None), rest, _, [Line line]. repeat split.
    + exists (inr KeyboardInterrupt), rest, [AskPath], [Interrupt].
      repeat split. right. split; [reflexivity|]. exists []. reflexivity.
  - destruct stdin as [|[line|] rest].
    + exists (inr EOFError), [], [AskText], []. repeat split. left. reflexivity.
    + unfold _get_text_from_console, mbind, console_bind, bind, print, input.
      destruct (nonempty (strip line)) eqn:Ene.
      * eexists (inl (Some (strip line))), rest, _, [Line line]. repeat split;
          apply strip_trimmed, nonempty_true, Ene.
      * eexists (inl None), rest, _, [Line line]. repeat split.
    + exists (inr KeyboardInterrupt), rest, [AskText], [Interrupt].
      repeat split. right. split; [reflexivity|]. exists []. reflexivity.
  - exists (inl None), stdin, [], []. repeat split.
Qed.

Lemma loop_S (rounds : nat) (stdin : list event) :
  loop normalize analyzer (S rounds) stdin =
  match _with_exception_handling (_process_iteration normalize analyzer) stdin
  with
  | (inl _, stdin', out) =>
    let '(r, stdin'', out') := loop normalize analyzer rounds stdin' in
    (r, stdin'', out ++ out')
  | (inr e, stdin', out) => (inr e, stdin', out)
  end.
Proof. reflexivity. Qed.

(** One round of the menu returns, having read from the front of the
    input, or leaves by [SystemExit] right after a line that is the
    exit keyword, or by [KeyboardInterrupt] right after an interrupt. *)
Lemma round_cases (stdin : list event) :
  exists r rest out,
    _with_exception_handling (_process_iteration normalize analyzer) stdin
    = (r, rest, out) /\
    ((r = inl tt /\ exists used, stdin = used ++ rest) \/
     (r = inr SystemExit /\ out = [Menu; Goodbye] /\
      exists line, stdin = Line line :: rest /\ is_exit (strip line) = true) \/
     (r = inr KeyboardInterrupt /\
      exists before, stdin = before ++ Interrupt :: rest)).
Proof.
  destruct stdin as [|[line|] rest].
  - exists (inl tt), [], [Menu; ErrorOccurred EOFError].
    split; [reflexivity|]. left. split; [reflexivity|]. exists []. reflexivity.
  - unfold _with_exception_handling, _process_iteration,
      mbind, console_bind, bind, print, input.
    destruct (is_exit (strip line)) eqn:Ex.
    + exists (inr SystemExit), rest, [Menu; Goodbye].
      split; [reflexivity|]. right. left. repeat split. exists line.
      split; auto.
    + destruct (text_for_analysis_cases (strip line) rest)
        as (r & rest' & out & used & E & Hused & Hr).
      rewrite E. destruct r as [[text|]|e].
      * unfold run_analyze.
        destruct (analyze analyzer normalize text) as [res|err];
          eexists (inl tt), rest', _; (split; [reflexivity|]); left;
          (split; [reflexivity|]); exists (Line line :: used); rewrite Hused;
          reflexivity.
      * eexists (inl tt), rest', _. split; [reflexivity|]. left.
        split; [reflexivity|]. exists (Line line :: used). rewrite Hused.
        reflexivity.
      * destruct Hr as [-> | (-> & before & Hb)].
        -- eexists (inl tt), rest', _. split; [reflexivity|]. left.
           split; [reflexivity|]. exists (Line line :: used). rewrite Hused.
           reflexivity.
        -- eexists (inr KeyboardInterrupt), rest', _. split; [reflexivity|].
           right. right. split; [reflexivity|].
           exists (Line line :: before). rewrite Hb. reflexivity.
  - exists (inr KeyboardInterrupt), rest, [Menu].
    split; [reflexivity|]. right. right. split; [reflexivity|].
    exists []. reflexivity.
Qed.

Lemma loop_at_end (k : nat) :
  loop normalize analyzer k [] = (inl tt, [], at_end_of_input k).
Proof.
  induction k as [|k IH]; [reflexivity|].
  rewrite loop_S. change (_with_exception_handling _ [])
    with (@inl unit raised tt, @nil event, [Menu; ErrorOccurred EOFError]).
  cbv iota beta. rewrite IH. reflexivity.
Qed.

End ConsoleProgram.





(** X20.  The end of the input does not end the program.  Once the
    input is used up, every further round of the loop prints the menu
    and the error of [input], and the loop goes on: the [EOFError] is
    caught like any other exception. *)
Theorem end_of_input_repeats_menu {rt : Runtime} {fs : FileSystem}
  (normalize : list Token -> list Token) (analyzer : SentimentAnalyzer)
  (rounds k : nat) (stdin : list Program.event)
  (out : list Program.message) :
  Program.loop normalize analyzer rounds stdin = (inl tt, [], out) ->
  Program.loop normalize analyzer (rounds + k) stdin
  = (inl tt, [], out ++ at_end_of_input k).
Proof.
  revert stdin out. induction rounds as [|n IH]; intros stdin out H.
  - injection H as -> <-. apply loop_at_end.
  - change (S n + k)%nat with (S (n + k)). rewrite loop_S in H |- *.
    destruct (Program._with_exception_handling _ stdin) as [[[[]|e] s1] o1];
      [|discriminate].
    destruct (Program.loop normalize analyzer n s1) as [[r2 s2] o2] eqn:El.
    injection H as -> -> <-.
    rewrite (IH _ _ El), app_assoc. reflexivity.
Qed.

Lemma end_of_input_repeats_menu_witness :
  Program.loop (rt := Basic.runtime) (fs := Disk.disk) unnormalized
    Sample.analyzer (1 + 2) [Program.Line (u "2")]
  = (inl tt, [],
     [Program.Menu; Program.AskText; Program.ErrorOccurred Program.EOFError]
     ++ at_end_of_input 2).
Proof.
  apply (end_of_input_repeats_menu (rt := Basic.runtime) (fs := Disk.disk)
           unnormalized Sample.analyzer 1 2 [Program.Line (u "2")]).
  vm_compute. reflexivity.
Defined.

(** X21.  A round in console mode analyses the trimmed line that
    follows the choice, and an exception of [analyze] does not end the
    program: the round prints the report, or the error in its place,
    and returns with the rest of the input untouched. *)
Theorem console_round_analyses_trimmed_line {rt : Runtime} {fs : FileSystem}
  (normalize : list Token -> list Token) (analyzer : SentimentAnalyzer)
  (choice line : str) (rest : list Program.event) :
  strip choice = u "2" -> strip line <> [] ->
  Program._with_exception_handling
    (Program._process_iteration normalize analyzer)
    (Program.Line choice :: Program.Line line :: rest)
  = (inl tt, rest,
     [Program.Menu; Program.AskText; Program.Analyzing;
      match analyze analyzer normalize (strip line) with
      | Ok r => Program.Report r
      | Raise e => Program.ErrorOccurred (Program.AnalysisError e)
      end]).
Proof.
  intros Hc Hl.
  unfold Program._with_exception_handling, Program._process_iteration,
    mbind, Program.console_bind, Program.bind, Program.print, Program.input.
  rewrite Hc.
  change (Program.is_exit (u "2")) with false. cbv iota.
  unfold Program._get_text_for_analysis.
  rewrite (bool_decide_eq_false_2 (u "2" = u "1")) by (vm_compute; discriminate).
  rewrite (bool_decide_eq_true_2 (u "2" = u "2")) by reflexivity.
  unfold Program._get_text_from_console,
    mbind, Program.console_bind, Program.bind, Program.print, Program.input.
  destruct (strip line) as [|c r] eqn:E; [congruence|].
  cbv beta iota zeta
    delta [nonempty Program.ret Program.raise Program.run_analyze app].
  destruct (analyze analyzer normalize (c :: r)); reflexivity.
Qed.

Lemma console_round_analyses_trimmed_line_witness :
  Program._with_exception_handling
    (Program._process_iteration (rt := Basic.runtime) (fs := Disk.disk)
       unnormalized Sample.analyzer)
    [Program.Line (u " 2"); Program.Line (u "очень ужасно, очень ужасно ");
     Program.Line (u "exit")]
  = (inl tt, [Program.Line (u "exit")],
     [Program.Menu; Program.AskText; Program.Analyzing;
      match analyze (rt := Basic.runtime) Sample.analyzer unnormalized
              (strip (u "очень ужасно, очень ужасно ")) with
      | Ok r => Program.Report r
      | Raise e => Program.ErrorOccurred (Program.AnalysisError e)
      end]).
Proof.
  apply (console_round_analyses_trimmed_line (rt := Basic.runtime)
           (fs := Disk.disk) unnormalized Sample.analyzer
           (u " 2") (u "очень ужасно, очень ужасно ")
           [Program.Line (u "exit")]).
  - vm_compute. reflexivity.
  - vm_compute. discriminate.
Defined.

(** X22.  A file in which nothing is found under any of the four
    encodings, for one an empty file or a file of blank lines, is
    reported as a problem of the encoding, and the round then prints the
    message about a wrong choice although the choice was "1"; nothing is
    analysed. *)
Theorem blank_file_blamed_on_encoding {rt : Runtime} {fs : FileSystem}
  (normalize : list Token -> list Token) (analyzer : SentimentAnalyzer)
  (choice line : str) (rest : list Program.event) :
  strip choice = u "1" -> strip line <> [] ->
  path_exists (strip line) = true ->
  Forall (fun e => nothing_read (readlines (strip line) e)) encodings ->
  Program._with_exception_handling
    (Program._process_iteration normalize analyzer)
    (Program.Line choice :: Program.Line line :: rest)
  = (inl tt, rest,
     [Program.Menu; Program.AskPath; Program.NoEncodingFits;
      Program.BadFormat]).
Proof.
  intros Hc Hl Hp Hall.
  unfold Program._with_exception_handling, Program._process_iteration,
    mbind, Program.console_bind, Program.bind, Program.print, Program.input.
  rewrite Hc.
  change (Program.is_exit (u "1")) with false. cbv iota.
  unfold Program._get_text_for_analysis.
  rewrite (bool_decide_eq_true_2 (u "1" = u "1")) by reflexivity.
  unfold Program._get_text_from_file,
    mbind, Program.console_bind, Program.bind, Program.print, Program.input.
  rewrite (proj2 (nonempty_true (strip line)) Hl), Hp. cbv beta iota.
  pose proof (read_with_nothing (strip line) encodings rest Hall) as E.
  unfold encodings in E. rewrite E. reflexivity.
Qed.

Lemma blank_file_blamed_on_encoding_witness :
  Program._with_exception_handling
    (Program._process_iteration (rt := Basic.runtime) (fs := Disk.disk)
       unnormalized Sample.analyzer)
    [Program.Line (u "1"); Program.Line (u "empty.txt");
     Program.Line (u "exit")]
  = (inl tt, [Program.Line (u "exit")],
     [Program.Menu; Program.AskPath; Program.NoEncodingFits;
      Program.BadFormat]).
Proof.
  apply (blank_file_blamed_on_encoding (rt := Basic.runtime)
           (fs := Disk.disk) unnormalized Sample.analyzer
           (u "1") (u "empty.txt") [Program.Line (u "exit")]).
  - vm_compute. reflexivity.
  - vm_compute. discriminate.
  - vm_compute. reflexivity.
  - unfold encodings.
    repeat (apply List.Forall_cons;
            [right; exists []; split; [vm_compute; reflexivity|constructor]|]).
    apply List.Forall_nil.
Defined.
